(** * astrbot_plugin_llm_executor: command index, policy gate, message
      synthesis and invocation sandbox of [main.py]

    A shallow embedding of [BotIdentityEventWrapper] and of the methods of
    [LLMExecutorPlugin] in [main.py], followed by the properties established
    about them.

    Conventions of the embedding.
    - A Python [str] is the list of its Unicode code points ([pystr]), so
      that [len], slicing and [startswith] read as in Python.  Literals are
      written as UTF-8 text and decoded by [u].
    - [str.strip]/[str.split] use Python's whitespace table; [str.isdigit]
      and [int] use the digit tables of Unicode 14.0 (CPython 3.11) and the
      default limit on the length of a converted string.
    - Python dictionaries that are only looked up by key are [gmap]s.
    - Objects that the code mutates in place (the event, its message object)
      live in a heap of attribute dictionaries, addressed by location.
    - Logging calls are omitted. *)

From Stdlib Require Import ZArith NArith Ascii String List Bool Lia.
From stdpp Require Import base option list gmap strings.

Set Warnings "-register-all".

Open Scope string_scope.
Open Scope list_scope.

(** ** Python strings *)

Module PyStr.

Abbreviation pystr := (list N).

Fixpoint utf8_decode (bs : list N) : list N :=
  match bs with
  | [] => []
  | b :: r =>
    if (b <? 128)%N then b :: utf8_decode r
    else if (b <? 224)%N then
      match r with
      | b1 :: r1 => ((b mod 32) * 64 + b1 mod 64)%N :: utf8_decode r1
      | _ => []
      end
    else if (b <? 240)%N then
      match r with
      | b1 :: b2 :: r2 =>
        ((b mod 16) * 4096 + (b1 mod 64) * 64 + b2 mod 64)%N :: utf8_decode r2
      | _ => []
      end
    else
      match r with
      | b1 :: b2 :: b3 :: r3 =>
        ((b mod 8) * 262144 + (b1 mod 64) * 4096 + (b2 mod 64) * 64 + b3 mod 64)%N
          :: utf8_decode r3
      | _ => []
      end
  end.

(** [u "..."] is the Python string written between the quotes. *)
Definition u (s : string) : pystr :=
  utf8_decode (map N_of_ascii (list_ascii_of_string s)).

(** Characters for which [str.isspace] holds. *)
Definition isspace (c : N) : bool :=
  ((9 <=? c) && (c <=? 13) || (28 <=? c) && (c <=? 32)
   || (c =? 133) || (c =? 160) || (c =? 5760)
   || (8192 <=? c) && (c <=? 8202) || (c =? 8232) || (c =? 8233)
   || (c =? 8239) || (c =? 8287) || (c =? 12288))%N.

Fixpoint lstrip (s : pystr) : pystr :=
  match s with
  | c :: s' => if isspace c then lstrip s' else s
  | [] => []
  end.

Definition rstrip (s : pystr) : pystr := rev (lstrip (rev s)).

(** [s.strip()] *)
Definition strip (s : pystr) : pystr := rstrip (lstrip s).

(** [s.split()], with [cur] the word being read. *)
Fixpoint split_from (cur : pystr) (s : pystr) : list pystr :=
  match s with
  | [] => match cur with [] => [] | _ => [cur] end
  | c :: s' =>
    if isspace c
    then match cur with
         | [] => split_from [] s'
         | _ => cur :: split_from [] s'
         end
    else split_from (cur ++ [c]) s'
  end.

Definition split (s : pystr) : list pystr := split_from [] s.

(** [s.startswith(p)] *)
Fixpoint startswith (p s : pystr) : bool :=
  match p, s with
  | [], _ => true
  | a :: p', b :: s' => (a =? b)%N && startswith p' s'
  | _ :: _, [] => false
  end.

(** [p in s] on strings. *)
Fixpoint contains (p s : pystr) : bool :=
  startswith p s ||
  match s with
  | [] => false
  | _ :: s' => contains p s'
  end.

(** [sep.join(l)] *)
Fixpoint join (sep : pystr) (l : list pystr) : pystr :=
  match l with
  | [] => []
  | [x] => x
  | x :: l' => x ++ sep ++ join sep l'
  end.

(** Code points of the digit zero of every decimal digit block (general
    category Nd) of Unicode 14.0, the table of CPython 3.11; the nine
    code points after each are its digits one to nine. *)
Definition decimal_zeros : list N :=
  [ 48; 1632; 1776; 1984; 2406; 2534; 2662; 2790; 2918; 3046; 3174; 3302;
    3430; 3558; 3664; 3792; 3872; 4160; 4240; 6112; 6160; 6470; 6608; 6784;
    6800; 6992; 7088; 7232; 7248; 42528; 43216; 43264; 43472; 43504; 43600;
    44016; 65296; 66720; 68912; 69734; 69872; 69942; 70096; 70384; 70736;
    70864; 71248; 71360; 71472; 71904; 72016; 72784; 73040; 73120; 92768;
    92864; 93008; 120782; 120792; 120802; 120812; 120822; 123200; 123632;
    125264; 130032 ]%N.

(** The value of a decimal digit character, as [int] reads it. *)
Definition decimal_value (c : N) : option nat :=
  match find (fun z => (z <=? c) && (c <? z + 10))%N decimal_zeros with
  | Some z => Some (N.to_nat (c - z))
  | None => None
  end.

(** The digit characters that are not decimal (superscripts, circled
    digits and the like): [str.isdigit] accepts them, [int] does not. *)
Definition other_digit_ranges : list (N * N) :=
  [ (178, 179); (185, 185); (4969, 4977); (6618, 6618); (8304, 8304);
    (8308, 8313); (8320, 8329); (9312, 9320); (9332, 9340); (9352, 9360);
    (9450, 9450); (9461, 9469); (9471, 9471); (10102, 10110);
    (10112, 10120); (10122, 10130); (68160, 68163); (69216, 69224);
    (69714, 69722); (127232, 127242) ]%N.

Definition is_digit_char (c : N) : bool :=
  match decimal_value c with
  | Some _ => true
  | None => existsb (fun r => (fst r <=? c) && (c <=? snd r))%N other_digit_ranges
  end.

(** [s.isdigit()]: false on the empty string. *)
Definition isdigit (s : pystr) : bool :=
  match s with
  | [] => false
  | _ => forallb is_digit_char s
  end.

(** The default of [sys.get_int_max_str_digits()]. *)
Definition int_max_str_digits : N := 4300.

(** [int(s)] for a string that passes [isdigit]; [None] is the
    [ValueError] raised for a digit that is not decimal or for a string
    longer than the conversion limit. *)
Definition int_step (acc : option nat) (c : N) : option nat :=
  match acc, decimal_value c with
  | Some a, Some d => Some (10 * a + d)
  | _, _ => None
  end.

Definition int_of (s : pystr) : option nat :=
  if (int_max_str_digits <? N.of_nat (length s))%N then None
  else fold_left int_step s (Some 0).

Fixpoint digits_from (fuel n : nat) (acc : pystr) : pystr :=
  match fuel with
  | 0 => acc
  | S fuel' =>
    let acc' := N.of_nat (48 + n mod 10) :: acc in
    if (n <? 10)%nat then acc' else digits_from fuel' (n / 10) acc'
  end.

(** [str(n)] for a natural number. *)
Definition str_of_nat (n : nat) : pystr := digits_from (S n) n [].

(** Truth value of a string: non-empty. *)
Definition truthy (s : pystr) : bool :=
  match s with [] => false | _ => true end.

(** The command normalisation used throughout: drop one leading slash. *)
Definition strip_slash (s : pystr) : pystr :=
  match s with
  | 47%N :: s' => s'
  | _ => s
  end.

End PyStr.

Import PyStr.

(** ** Message components ([astrbot.core.message.components]) *)

Inductive component :=
| Plain (text : pystr)
| At (qq : pystr)
| Image (file : option pystr) (url : option pystr)
| Reply (id sender_id : Z) (chain : list component)
| Node (uin : pystr) (name : pystr) (content : list component).

(** The ways a constructor call of the host library may end, as far as
    [_build_message_components] tells them apart. *)
Inductive ctor_outcome :=
| Built (c : component)
| RaisesAttrOrTypeError
| RaisesOther (msg : pystr).

(** ** [_build_message_components] *)

Module Builder.

(** State of the placeholder loop: components emitted so far and the
    pending plain words.  [None] is the [ValueError] that [int] raises on
    a token that passes the digit test, which the method does not catch. *)
Fixpoint placeholder_loop (at_qq_list : list pystr) (arg_parts : list pystr)
    (components : list component) (text_buffer : list pystr)
  : option (list component * list pystr) :=
  match arg_parts with
  | [] => Some (components, text_buffer)
  | part :: rest =>
    if startswith (u "@") part && (1 <? length part)%nat && isdigit (drop 1 part)
    then
      match int_of (drop 1 part) with
      | None => None
      | Some idx =>
        match at_qq_list !! idx with
        | Some qq =>
          let components' :=
            match text_buffer with
            | [] => components
            | _ => components ++ [Plain (u " " ++ join (u " ") text_buffer)]
            end in
          placeholder_loop at_qq_list rest (components' ++ [At qq]) []
        | None =>
          placeholder_loop at_qq_list rest components (text_buffer ++ [part])
        end
      end
    else placeholder_loop at_qq_list rest components (text_buffer ++ [part])
  end.

(** [any(f"@{i}" in args for i in range(len(at_qq_list)))] *)
Definition has_placeholders (args : pystr) (at_qq_list : list pystr) : bool :=
  existsb (fun i => contains (u "@" ++ str_of_nat i) args)
          (seq 0 (length at_qq_list)).

Definition reply_part (image_fromURL : pystr -> ctor_outcome)
    (reply_image_url : option pystr) : pystr + list component :=
  match reply_image_url with
  | Some url =>
    if truthy url then
      match image_fromURL url with
      | Built img => inr [Reply 0 0 [img]]
      | RaisesAttrOrTypeError => inr [Reply 0 0 [Image (Some url) None]]
      | RaisesOther msg => inl msg
      end
    else inr []
  | None => inr []
  end.

(** The segments after the optional reply; [None] as for the loop. *)
Definition command_part (command args : pystr) (at_qq_list : list pystr)
  : option (list component) :=
  match at_qq_list, truthy args with
  | _ :: _, true =>
    if has_placeholders args at_qq_list then
      match placeholder_loop at_qq_list (split args)
              [Plain (u "/" ++ command)] [] with
      | None => None
      | Some (components, text_buffer) =>
        match text_buffer with
        | [] => Some components
        | _ => Some (components ++ [Plain (u " " ++ join (u " ") text_buffer)])
        end
      end
    else
      Some ([Plain (u "/" ++ command)] ++ map At at_qq_list
              ++ [Plain (u " " ++ args)])
  | _, _ =>
    let command_text :=
      if truthy args then u "/" ++ command ++ u " " ++ args
      else u "/" ++ command in
    Some ([Plain command_text] ++ map At at_qq_list)
  end.

(** The result is [inl msg] when the method raises: building the quoted
    image raises an exception that is not caught (with its text), or [int]
    raises on a placeholder token (the text of a [ValueError] is only
    logged by the caller and stands as "ValueError"). *)
Definition _build_message_components (image_fromURL : pystr -> ctor_outcome)
    (command args : pystr) (at_qq_list : list pystr)
    (reply_image_url : option pystr) : pystr + list component :=
  match reply_part image_fromURL reply_image_url with
  | inl msg => inl msg
  | inr components =>
    match command_part command args at_qq_list with
    | None => inl (u "ValueError")
    | Some rest => inr (components ++ rest)
    end
  end.

End Builder.

(** ** Objects, attributes and the heap *)

Abbreviation loc := positive.

(** An inbound event of the host.  Its mutable attributes ([message_str],
    [message_obj], ...) are kept in the heap at [self_ref]; the results of
    the accessor methods that [main.py] calls are fixed for the event. *)
Record AstrMessageEvent := {
  self_ref : loc;
  sender_id : pystr;       (* str(event.get_sender_id()) *)
  platform_name : pystr;   (* event.get_platform_name() *)
  self_id : pystr          (* event.get_self_id() *)
}.

Inductive value :=
| VNone
| VStr (s : pystr)
| VRef (l : loc)                    (* a plain object, e.g. the message object *)
| VEvent (e : AstrMessageEvent)
| VComponents (cs : list component)
| VMember (name : string)           (* a method or protocol member of a class *)
| VOpaque (tag : nat).

(** What [getattr]/[setattr] can see of an object: one dictionary per
    object, instance attributes shadowing class ones. *)
Abbreviation attrs := (gmap string value).
Abbreviation heap := (gmap loc attrs).

Inductive exn :=
| AttributeError (msg : pystr)
| TypeError (msg : pystr)
| OtherException (msg : pystr).

Definition exn_str (e : exn) : pystr :=
  match e with
  | AttributeError m | TypeError m | OtherException m => m
  end.

Module Obj.

Definition attrs_of (h : heap) (l : loc) : attrs := default ∅ (h !! l).

(** [getattr(o, name)] on a heap object; [None] stands for AttributeError. *)
Definition getattr (h : heap) (l : loc) (name : string) : option value :=
  attrs_of h l !! name.

(** [setattr(o, name, v)] on a heap object. *)
Definition setattr (h : heap) (l : loc) (name : string) (v : value) : heap :=
  <[l := <[name := v]> (attrs_of h l)]> h.

(** [getattr(x, name)] for an arbitrary value: only events and plain
    objects carry attributes in this model. *)
Definition value_getattr (h : heap) (x : value) (name : string) : option value :=
  match x with
  | VEvent e => getattr h (self_ref e) name
  | VRef l => getattr h l name
  | _ => None
  end.

Definition value_setattr (h : heap) (x : value) (name : string) (v : value)
  : option heap :=
  match x with
  | VEvent e => Some (setattr h (self_ref e) name v)
  | VRef l => Some (setattr h l name v)
  | _ => None
  end.

End Obj.

(** ** [BotIdentityEventWrapper] *)

Module Wrapper.

Record BotIdentityEventWrapper := {
  _original_event : value;
  _bot_user_id : value
}.

(** [__init__] *)
Definition init (original_event : AstrMessageEvent) (bot_user_id : pystr)
  : BotIdentityEventWrapper :=
  {| _original_event := VEvent original_event; _bot_user_id := VStr bot_user_id |}.

(** [get_sender_id] *)
Definition get_sender_id (self : BotIdentityEventWrapper) : value :=
  _bot_user_id self.

(** [__getattr__] *)
Definition __getattr__ (h : heap) (self : BotIdentityEventWrapper)
    (name : string) : option value :=
  Obj.value_getattr h (_original_event self) name.

(** [__setattr__]: the new wrapper and heap, or [None] when the wrapped
    value takes no attributes. *)
Definition __setattr__ (h : heap) (self : BotIdentityEventWrapper)
    (name : string) (v : value) : option (BotIdentityEventWrapper * heap) :=
  if decide (name = "_original_event") then
    Some ({| _original_event := v; _bot_user_id := _bot_user_id self |}, h)
  else if decide (name = "_bot_user_id") then
    Some ({| _original_event := _original_event self; _bot_user_id := v |}, h)
  else
    h' ← Obj.value_setattr h (_original_event self) name v; Some (self, h').

(** Names that Python's ordinary lookup finds on a wrapper instance before
    [__getattr__] is tried: the members of the class body and those that
    every instance inherits from [object] (CPython 3.11 and 3.12). *)
Definition class_namespace : list string :=
  [ "get_sender_id"; "__init__"; "__getattr__"; "__setattr__"; "__doc__";
    "__module__"; "__dict__"; "__weakref__";
    "__class__"; "__delattr__"; "__dir__"; "__eq__"; "__format__"; "__ge__";
    "__getattribute__"; "__getstate__"; "__gt__"; "__hash__";
    "__init_subclass__"; "__le__"; "__lt__"; "__ne__"; "__new__";
    "__reduce__"; "__reduce_ex__"; "__repr__"; "__sizeof__"; "__str__";
    "__subclasshook__" ].

(** The attribute read [wrapper.name]: instance fields, then the class,
    then [__getattr__]. *)
Definition read (h : heap) (self : BotIdentityEventWrapper) (name : string)
  : option value :=
  if decide (name = "_original_event") then Some (_original_event self)
  else if decide (name = "_bot_user_id") then Some (_bot_user_id self)
  else if decide (name ∈ class_namespace) then Some (VMember name)
  else __getattr__ h self name.

(** The attribute write [wrapper.name = v]: always [__setattr__]. *)
Definition write := __setattr__.

End Wrapper.

Import Wrapper.

(** The object bound to the variable [event] inside [execute_command]. *)
Inductive pyevent :=
| Orig (e : AstrMessageEvent)
| Wrap (w : BotIdentityEventWrapper).

Module Ev.

Definition getattr (h : heap) (ev : pyevent) (name : string) : option value :=
  match ev with
  | Orig e => Obj.getattr h (self_ref e) name
  | Wrap w => Wrapper.read h w name
  end.

(** Attribute writes never rebind the variable itself; a write through a
    wrapper that cannot be delegated raises. *)
Definition setattr (h : heap) (ev : pyevent) (name : string) (v : value)
  : option heap :=
  match ev with
  | Orig e => Some (Obj.setattr h (self_ref e) name v)
  | Wrap w => snd <$> Wrapper.write h w name v
  end.

(** [hasattr(ev, 'message_obj') and hasattr(ev.message_obj, 'message')],
    giving the message object when both hold. *)
Definition message_obj_with_message (h : heap) (ev : pyevent) : option value :=
  mo ← getattr h ev "message_obj";
  _ ← Obj.value_getattr h mo "message";
  Some mo.

(** The host event that answers the calls which a wrapper delegates
    ([get_platform_name], [get_self_id], [send]). *)
Definition host_event (ev : pyevent) : option AstrMessageEvent :=
  match ev with
  | Orig e => Some e
  | Wrap w => match _original_event w with VEvent e => Some e | _ => None end
  end.

End Ev.

(** ** Results produced by command handlers *)

(** A result is a bare string or an object that may carry a [chain] and a
    [result_message] attribute. *)
Inductive result :=
| RString (s : pystr)
| RObject (chain : option (list component)) (result_message : option pystr).

Definition chain_of (r : result) : list component :=
  match r with
  | RObject (Some chain) _ => chain
  | _ => []
  end.

(** A handler is an async generator function or a coroutine function.  Its
    body sees the event it is given and the heap, and may change the heap. *)
Inductive handler_fn :=
| AsyncGenFn
    (body : pyevent -> heap -> list (option result) * option exn * heap)
| CoroutineFn
    (body : pyevent -> heap -> (exn + option result) * heap).

(** ** The handler registry and the extensions of the host *)

Inductive alias_field :=
| AliasSet (elements : list pystr)   (* a set, in iteration order *)
| AliasList (elements : list pystr)
| AliasOther.                        (* absent, None or another type *)

Inductive event_filter :=
| CommandFilter (command_name : pystr) (alias : alias_field)
| CommandGroupFilter (group_name : pystr)
| PermissionTypeFilter
| OtherFilter.

Record StarHandlerMetadata := {
  handler_module_path : pystr;
  desc : pystr;
  event_filters : list event_filter;
  handler : handler_fn
}.

Inductive registry_entry :=
| Metadata (md : StarHandlerMetadata)
| Foreign.                           (* not a StarHandlerMetadata *)

Record star := {
  name : option pystr;               (* None: no such attribute *)
  module_path : option pystr;
  activated : bool;
  star_cls : option nat              (* the extension instance, if any *)
}.

(** What the plugin obtains from its collaborators. *)
Record host := {
  get_all_stars : option (list star);          (* None: the call raises *)
  star_handlers_registry : list registry_entry;
  image_fromURL : pystr -> ctor_outcome;
  (* whether [event.send(payload)] raises, given the sends made before *)
  send_raises : list result -> result -> bool
}.

Record config := {
  enabled : bool;
  whitelist : list pystr;
  blacklist : list pystr;
  allow_admin_commands : bool;
  admin_users : list pystr;
  bot_user_id : pystr;
  enable_forward : bool;
  forward_threshold : Z
}.

(** ** The handler index *)

Record handler_info := {
  hi_command : pystr;
  hi_description : pystr;
  hi_plugin : pystr;
  hi_aliases : list pystr;
  hi_is_admin : bool;
  hi_handler : StarHandlerMetadata;
  hi_module_path : pystr
}.

(** [self._handler_cache] and [self._alias_to_command]. *)
Record index := {
  _handler_cache : gmap pystr handler_info;
  _alias_to_command : gmap pystr pystr
}.

Module Index.

Definition blank : index :=
  {| _handler_cache := ∅; _alias_to_command := ∅ |}.

Definition skip_plugins : list pystr :=
  [ u "astrbot"; u "astrbot_plugin_llm_executor";
    u "astrbot_plugin_command_query"; u "astrbot-reminder" ].

Definition plugin_name_of (s : star) : pystr := default (u "未知插件") (name s).

(** One step of the loop that fills [module_to_star]. *)
Definition add_star (module_to_star : gmap pystr (star * pystr)) (s : star)
  : gmap pystr (star * pystr) :=
  let plugin_name := plugin_name_of s in
  match module_path s with
  | Some mp =>
    if bool_decide (plugin_name ∈ skip_plugins) || negb (truthy mp)
    then module_to_star
    else <[mp := (s, plugin_name)]> module_to_star
  | None => module_to_star
  end.

(** The variables [command_name], [aliases] and [is_admin_command] while
    the filters of one handler are scanned. *)
Record scan := {
  command_name : option pystr;
  aliases : list pystr;
  is_admin_command : bool
}.

Definition scan_filter (st : scan) (f : event_filter) : scan :=
  match f with
  | CommandFilter cn al =>
    {| command_name := Some cn;
       aliases :=
         match al with
         | AliasSet ((_ :: _) as l) | AliasList ((_ :: _) as l) => l
         | _ => aliases st
         end;
       is_admin_command := is_admin_command st |}
  | CommandGroupFilter gn =>
    {| command_name := Some gn; aliases := aliases st;
       is_admin_command := is_admin_command st |}
  | PermissionTypeFilter =>
    {| command_name := command_name st; aliases := aliases st;
       is_admin_command := true |}
  | OtherFilter => st
  end.

Definition scan_filters (fs : list event_filter) : scan :=
  fold_left scan_filter fs
    {| command_name := None; aliases := []; is_admin_command := false |}.

Definition add_alias (command_name : pystr) (m : gmap pystr pystr)
    (alias : pystr) : gmap pystr pystr :=
  <[strip_slash alias := command_name]> m.

(** The record that the loop body builds for one handler, if it indexes
    the handler at all. *)
Definition record_of (module_to_star : gmap pystr (star * pystr))
    (md : StarHandlerMetadata) : option handler_info :=
  match module_to_star !! handler_module_path md with
  | None => None
  | Some (_, plugin_name) =>
    let st := scan_filters (event_filters md) in
    match command_name st with
    | Some cn =>
      if truthy cn then
        Some {| hi_command := strip_slash cn;
                hi_description :=
                  if truthy (desc md) then desc md else u "无描述";
                hi_plugin := plugin_name;
                hi_aliases := aliases st;
                hi_is_admin := is_admin_command st;
                hi_handler := md;
                hi_module_path := handler_module_path md |}
      else None
    | None => None
    end
  end.

(** The body of the loop over [star_handlers_registry]. *)
Definition scan_handler (module_to_star : gmap pystr (star * pystr))
    (self : index) (entry : registry_entry) : index :=
  match entry with
  | Foreign => self
  | Metadata md =>
    match record_of module_to_star md with
    | None => self
    | Some info =>
      {| _handler_cache := <[hi_command info := info]> (_handler_cache self);
         _alias_to_command :=
           fold_left (add_alias (hi_command info)) (hi_aliases info)
                     (_alias_to_command self) |}
    end
  end.

Definition module_index (all_stars : list star) : gmap pystr (star * pystr) :=
  fold_left add_star all_stars ∅.

(** [_build_handler_cache]: both dictionaries are cleared, then refilled
    from the active extensions and the registry. *)
Definition _build_handler_cache (hst : host) (self : index) : index :=
  let self := {| _handler_cache := ∅; _alias_to_command := ∅ |} in
  match get_all_stars hst with
  | None => self
  | Some all_stars =>
    let all_stars := List.filter activated all_stars in
    match all_stars with
    | [] => self
    | _ =>
      fold_left (scan_handler (module_index all_stars))
                (star_handlers_registry hst) self
    end
  end.

(** Alias resolution as written in [_can_execute] and [execute_command]:
    [self._alias_to_command.get(command, command)] after the slash is
    dropped, then the lookup in [self._handler_cache]. *)
Definition canonical (self : index) (command : pystr) : pystr :=
  let command := strip_slash command in
  default command (_alias_to_command self !! command).

Definition resolve (self : index) (command : pystr) : option handler_info :=
  _handler_cache self !! canonical self command.

End Index.

(** ** [_can_execute] *)

(** The second component of the verdict; [reason_str] gives its text. *)
Inductive reason :=
| Disabled
| NotFound (command : pystr)
| NotWhitelisted (command : pystr)
| Blacklisted (command : pystr)
| NeedsAdmin (command : pystr)
| AllowedAdminUser
| Allowed.

Definition reason_str (r : reason) : pystr :=
  match r with
  | Disabled => u "LLM指令执行器已禁用"
  | NotFound c => u "未找到指令: " ++ c
  | NotWhitelisted c => u "指令 " ++ c ++ u " 不在白名单中"
  | Blacklisted c => u "指令 " ++ c ++ u " 在黑名单中"
  | NeedsAdmin c => u "指令 " ++ c ++ u " 需要管理员权限，你不在管理员列表中"
  | AllowedAdminUser => u "可以执行（管理员用户）"
  | Allowed => u "可以执行"
  end.

Definition mem (x : pystr) (l : list pystr) : bool := bool_decide (x ∈ l).

Definition nonempty {A} (l : list A) : bool :=
  match l with [] => false | _ => true end.

Definition _can_execute (cfg : config) (self : index) (command : pystr)
    (event : AstrMessageEvent) : bool * reason :=
  if negb (enabled cfg) then (false, Disabled)
  else
    let command := strip_slash command in
    let actual_command := default command (_alias_to_command self !! command) in
    match _handler_cache self !! actual_command with
    | None => (false, NotFound command)
    | Some handler_info =>
      if nonempty (whitelist cfg)
         && (negb (mem actual_command (whitelist cfg))
             && negb (mem command (whitelist cfg)))
      then (false, NotWhitelisted command)
      else if nonempty (blacklist cfg)
              && (mem actual_command (blacklist cfg)
                  || mem command (blacklist cfg))
      then (false, Blacklisted command)
      else if hi_is_admin handler_info then
        let user_id := sender_id event in
        if mem user_id (admin_users cfg) then (true, AllowedAdminUser)
        else if negb (allow_admin_commands cfg) then (false, NeedsAdmin command)
        else (true, Allowed)
      else (true, Allowed)
    end.

(** ** [_get_plugin_instance] *)

Definition _get_plugin_instance (hst : host) (module_path' : pystr)
  : option nat :=
  match get_all_stars hst with
  | None => None
  | Some all_stars =>
    match find (fun s => bool_decide (module_path s = Some module_path'))
               all_stars with
    | Some s => star_cls s
    | None => None
    end
  end.

(** ** [_extract_content_from_result] *)

Definition extract_component (comp : component) : list pystr * list pystr :=
  match comp with
  | Plain text => ([text], [])
  | Image file url =>
    match url with
    | Some ((_ :: _) as s) => ([], [s])
    | _ =>
      match file with
      | Some ((_ :: _) as s) => ([], [s])
      | _ => ([], [])
      end
    end
  | _ => ([], [])
  end.

(** The pair is ([texts], [images]). *)
Definition _extract_content_from_result (r : result) : list pystr * list pystr :=
  match r with
  | RObject (Some ((_ :: _) as chain)) _ =>
    (flat_map (fun c => fst (extract_component c)) chain,
     flat_map (fun c => snd (extract_component c)) chain)
  | RString s => ([s], [])
  | RObject _ (Some ((_ :: _) as m)) => ([m], [])
  | RObject _ _ => ([], [])
  end.

(** [result_texts] and [result_images] once every result in
    [results_to_send] has been extracted. *)
Definition extracted_texts (results_to_send : list result) : list pystr :=
  flat_map (fun r => fst (_extract_content_from_result r)) results_to_send.

Definition extracted_images (results_to_send : list result) : list pystr :=
  flat_map (fun r => snd (_extract_content_from_result r)) results_to_send.

(** ** The JSON payloads handed back to the agent *)

Inductive json :=
| JNull
| JBool (b : bool)
| JStr (s : pystr)
| JArr (items : list json)
| JObj (fields : list (string * json)).

(** [d[k] = v] on a dictionary kept in insertion order. *)
Fixpoint dict_set (d : list (string * json)) (k : string) (v : json)
  : list (string * json) :=
  match d with
  | [] => [(k, v)]
  | (k', v') :: d' =>
    if decide (k' = k) then (k, v) :: d' else (k', v') :: dict_set d' k v
  end.

Definition failure (error : pystr) : json :=
  JObj [("success", JBool false); ("error", JStr error)].

(** ** The invocation monad: state, call trace and exceptions *)

Inductive call :=
| Call_build_handler_cache
| Call_can_execute (command : pystr)
| Call_get_plugin_instance (module_path : pystr)
| Call_handler (ev : pyevent)
| Call_send (payload : result).

Record world := {
  w_index : index;
  w_heap : heap;
  w_trace : list call
}.

Inductive outcome (A : Type) :=
| Returns (a : A)
| Raises (e : exn).
Arguments Returns {A} a.
Arguments Raises {A} e.

Definition M (A : Type) : Type := world -> outcome A * world.

#[global] Instance M_ret : MRet M := fun A a w => (Returns a, w).

#[global] Instance M_bind : MBind M := fun A B f m w =>
  match m w with
  | (Returns a, w') => f a w'
  | (Raises e, w') => (Raises e, w')
  end.

Module Run.

Definition raise {A} (e : exn) : M A := fun w => (Raises e, w).

(** [try: body  except Exception as e: on_exn e] *)
Definition try_except {A} (body : M A) (on_exn : exn -> M A) : M A := fun w =>
  match body w with
  | (Returns a, w') => (Returns a, w')
  | (Raises e, w') => on_exn e w'
  end.

Definition get_index : M index := fun w => (Returns (w_index w), w).
Definition get_heap : M heap := fun w => (Returns (w_heap w), w).

Definition put_index (i : index) : M unit := fun w =>
  (Returns tt, {| w_index := i; w_heap := w_heap w; w_trace := w_trace w |}).

Definition put_heap (h : heap) : M unit := fun w =>
  (Returns tt, {| w_index := w_index w; w_heap := h; w_trace := w_trace w |}).

Definition log_call (c : call) : M unit := fun w =>
  (Returns tt,
   {| w_index := w_index w; w_heap := w_heap w; w_trace := w_trace w ++ [c] |}).

Definition sends_of (t : list call) : list result :=
  omap (fun c => match c with Call_send p => Some p | _ => None end) t.

(** [event.x = v]; raising stands for a wrapper that cannot delegate. *)
Definition set_attr (ev : pyevent) (x : string) (v : value) : M unit :=
  h ← get_heap;
  match Ev.setattr h ev x v with
  | Some h' => put_heap h'
  | None => raise (AttributeError (u "attribute cannot be set"))
  end.

End Run.

(** ** [execute_command] *)

(** The keyword arguments of the tool call; [None] is an absent key. *)
Record kwargs := {
  kw_command : option pystr;
  kw_args : option pystr;
  kw_at_qq_list : option (list pystr);
  kw_reply_image_url : option pystr;
  kw_as_bot : option bool
}.

Module Exec.

Import Run.

Section WithPlugin.

Variable cfg : config.
Variable hst : host.

(** [await event.send(payload)] *)
Definition send (payload : result) : M unit := fun w =>
  let w' := {| w_index := w_index w; w_heap := w_heap w;
               w_trace := w_trace w ++ [Call_send payload] |} in
  if send_raises hst (sends_of (w_trace w)) payload
  then (Raises (OtherException (u "send failed")), w')
  else (Returns tt, w').

(** [for result in results_to_send: try: await event.send(result)
     except Exception: ...] *)
Fixpoint send_each (results_to_send : list result) : M unit :=
  match results_to_send with
  | [] => mret tt
  | r :: rest =>
    _ ← try_except (send r) (fun _ => mret tt);
    send_each rest
  end.

Definition total_text_length (result_texts : list pystr) : nat :=
  list_sum (map (@length N) result_texts).

(** The flag [use_forward]. *)
Definition use_forward (event : AstrMessageEvent) (result_texts : list pystr)
  : bool :=
  enable_forward cfg
  && (forward_threshold cfg <? Z.of_nat (total_text_length result_texts))%Z
  && bool_decide (platform_name event = u "aiocqhttp").

(** The message sent on the combined path. *)
Definition forward_result (event : AstrMessageEvent)
    (all_components : list component) : result :=
  RObject (Some [Node (self_id event) (u "AstrBot") all_components]) None.

(** The delivery block of [execute_command] (from the computation of
    [total_text_length] to the end of the send loops).  [event] is the
    host event that answers [get_platform_name], [get_self_id] and [send],
    directly or through the wrapper. *)
Definition send_results (event : AstrMessageEvent)
    (results_to_send : list result) (result_texts : list pystr) : M unit :=
  if use_forward event result_texts then
    try_except
      (let all_components := flat_map chain_of results_to_send in
       match all_components with
       | [] => mret tt
       | _ => send (forward_result event all_components)
       end)
      (fun _ => send_each results_to_send)
  else send_each results_to_send.

Definition keep_results (yields : list (option result)) : list result :=
  omap id yields.

(** The [async for] over [handler.handler(event)] with its [TypeError]
    fallback to a plain [await]. *)
Definition run_handler (fn : handler_fn) (ev : pyevent) : M (list result) :=
  match fn with
  | AsyncGenFn body =>
    _ ← log_call (Call_handler ev);
    h ← get_heap;
    let '(yields, raised, h') := body ev h in
    _ ← put_heap h';
    match raised with
    | None => mret (keep_results yields)
    | Some (TypeError _) =>
      (* fallback: the fresh generator object cannot be awaited *)
      _ ← log_call (Call_handler ev);
      raise (TypeError
        (u "object async_generator can't be used in 'await' expression"))
    | Some e => raise e
    end
  | CoroutineFn body =>
    (* [async for] over a coroutine raises TypeError before it starts *)
    _ ← log_call (Call_handler ev);
    _ ← log_call (Call_handler ev);
    h ← get_heap;
    let '(ret, h') := body ev h in
    _ ← put_heap h';
    match ret with
    | inl e => raise e
    | inr None => mret []
    | inr (Some r) => mret [r]
    end
  end.

Definition success_response (actual_command args : pystr)
    (result_texts result_images : list pystr) (as_bot : bool) : json :=
  let response :=
    [("success", JBool true); ("command", JStr actual_command);
     ("args", if truthy args then JStr args else JNull)] in
  let response :=
    if nonempty result_texts
    then dict_set response "result" (JStr (join [10%N] result_texts))
    else response in
  let response :=
    if nonempty result_images then
      let response := dict_set response "images" (JArr (map JStr result_images)) in
      if nonempty result_texts then response
      else dict_set response "result"
             (JStr (u "指令返回了 " ++ str_of_nat (length result_images)
                    ++ u " 张图片"))
    else response in
  let response :=
    if negb (nonempty result_texts) && negb (nonempty result_images)
    then dict_set response "result" (JStr (u "指令执行完成（无输出内容）"))
    else response in
  JObj (dict_set response "executed_as"
          (JStr (if as_bot then u "bot" else u "user"))).

Definition failed_response (actual_command : pystr) (e : exn) : json :=
  JObj [("success", JBool false); ("command", JStr actual_command);
        ("error", JStr (u "执行失败: " ++ exn_str e))].

(** The restoration at the end of the [try] block: the text always, the
    message object when the saved one is not [None]. *)
Definition restore (event : AstrMessageEvent)
    (original_msg original_message_obj : value) : M unit :=
  _ ← set_attr (Orig event) "message_str" original_msg;
  match original_message_obj with
  | VNone => mret tt
  | _ => set_attr (Orig event) "message_obj" original_message_obj
  end.

(** The part of [execute_command] after the plugin instance is found:
    saving the event state, the [try] block and its [except] clause. *)
Definition invoke (event : AstrMessageEvent) (info : handler_info)
    (actual_command args : pystr) (at_qq_list : list pystr)
    (reply_image_url : pystr) (as_bot : bool) : M json :=
  h0 ← get_heap;
  match Obj.getattr h0 (self_ref event) "message_str" with
  | None => raise (AttributeError (u "message_str"))
  | Some original_msg =>
    let original_message_obj :=
      default VNone (Obj.getattr h0 (self_ref event) "message_obj") in
    try_except
      (let fn := handler (hi_handler info) in
       let ev := if as_bot then Wrap (Wrapper.init event (bot_user_id cfg))
                 else Orig event in
       _ ← set_attr ev "message_str"
             (VStr (if truthy args then u "/" ++ actual_command ++ u " " ++ args
                    else u "/" ++ actual_command));
       _ ← (if nonempty at_qq_list || truthy reply_image_url then
              match Builder._build_message_components (image_fromURL hst)
                      actual_command args at_qq_list (Some reply_image_url) with
              | inl _ => mret tt
              | inr components =>
                h ← get_heap;
                match Ev.message_obj_with_message h ev with
                | Some mo =>
                  match Obj.value_setattr h mo "message" (VComponents components) with
                  | Some h' => put_heap h'
                  | None => mret tt
                  end
                | None => mret tt
                end
              end
            else mret tt);
       results_to_send ← run_handler fn ev;
       let result_texts := extracted_texts results_to_send in
       let result_images := extracted_images results_to_send in
       _ ← send_results event results_to_send result_texts;
       _ ← restore event original_msg original_message_obj;
       mret (success_response actual_command args result_texts result_images
               as_bot))
      (fun e =>
         _ ← try_except (set_attr (Orig event) "message_str" original_msg)
               (fun _ => mret tt);
         mret (failed_response actual_command e))
  end.

Definition execute_command (event : AstrMessageEvent) (kw : kwargs) : M json :=
  let command := strip (default [] (kw_command kw)) in
  let args := strip (default [] (kw_args kw)) in
  let at_qq_list := default [] (kw_at_qq_list kw) in
  let reply_image_url := strip (default [] (kw_reply_image_url kw)) in
  let as_bot := default false (kw_as_bot kw) in
  if negb (truthy command) then
    mret (failure (u "缺少必需参数: command"))
  else
    self ← get_index;
    _ ← (if (size (_handler_cache self) =? 0)%nat then
           _ ← log_call Call_build_handler_cache;
           put_index (Index._build_handler_cache hst self)
         else mret tt);
    self ← get_index;
    _ ← log_call (Call_can_execute command);
    let '(can_exec, reason) := _can_execute cfg self command event in
    if negb can_exec then mret (failure (reason_str reason))
    else
      let command := strip_slash command in
      let actual_command := default command (_alias_to_command self !! command) in
      match _handler_cache self !! actual_command with
      | None => mret (failure (u "未找到指令: " ++ command))
      | Some handler_info =>
        _ ← log_call (Call_get_plugin_instance (hi_module_path handler_info));
        match _get_plugin_instance hst (hi_module_path handler_info) with
        | None =>
          mret (failure (u "无法获取指令 " ++ command ++ u " 所属插件的实例"))
        | Some _ =>
          invoke event handler_info actual_command args at_qq_list
                 reply_image_url as_bot
        end
      end.

End WithPlugin.

End Exec.

(** ** Notions used to state the properties *)

Module Props.

Import Index.

(** The extensions that a rebuild looks at. *)
Definition active_stars (hst : host) : list star :=
  match get_all_stars hst with
  | Some all_stars => List.filter activated all_stars
  | None => []
  end.

(** [md] is a handler of the active, non-excluded extension called [pn]. *)
Definition owned_by (hst : host) (md : StarHandlerMetadata) (pn : pystr) : Prop :=
  ∃ s, (s ∈ active_stars hst)
       ∧ plugin_name_of s = pn
       ∧ (pn ∉ skip_plugins)
       ∧ module_path s = Some (handler_module_path md)
       ∧ truthy (handler_module_path md) = true.

Definition filter_name (f : event_filter) : option pystr :=
  match f with
  | CommandFilter cn _ => Some cn
  | CommandGroupFilter gn => Some gn
  | _ => None
  end.

(** Following the specification's words: the command and group names that
    the filters of a handler declare. *)
Definition declared_names (md : StarHandlerMetadata) : list pystr :=
  omap filter_name (event_filters md).

(** Following the specification's words: the index holds exactly the
    prefix-stripped names declared by handlers of active, non-excluded
    extensions. *)
Definition holds_exactly_declared (hst : host) (idx : index) : Prop :=
  ∀ k, is_Some (_handler_cache idx !! k) ↔
       ∃ md pn n, (Metadata md ∈ star_handlers_registry hst)
                  ∧ owned_by hst md pn
                  ∧ (n ∈ declared_names md)
                  ∧ k = strip_slash n.

(** What is compared between two snapshots: name, description, aliases
    and admin flag of every record. *)
Definition record_view (info : handler_info)
  : pystr * pystr * list pystr * bool :=
  (hi_command info, hi_description info, hi_aliases info, hi_is_admin info).

Definition snapshot_view (idx : index)
  : gmap pystr (pystr * pystr * list pystr * bool) :=
  record_view <$> _handler_cache idx.

(** The whitelist and blacklist conditions of [_can_execute] for the
    stripped name [c] and its canonical form [a]. *)
Definition whitelist_passes (cfg : config) (c a : pystr) : Prop :=
  whitelist cfg = [] ∨ a ∈ whitelist cfg ∨ c ∈ whitelist cfg.

Definition blacklist_passes (cfg : config) (c a : pystr) : Prop :=
  (a ∉ blacklist cfg) ∧ (c ∉ blacklist cfg).

Definition with_whitelist (cfg : config) (wl : list pystr) : config :=
  {| enabled := enabled cfg; whitelist := wl; blacklist := blacklist cfg;
     allow_admin_commands := allow_admin_commands cfg;
     admin_users := admin_users cfg; bot_user_id := bot_user_id cfg;
     enable_forward := enable_forward cfg;
     forward_threshold := forward_threshold cfg |}.

(** Following the code: the name under which a handler is indexed is
    the one of its last command or command-group filter. *)
Definition indexed_name (md : StarHandlerMetadata) : option pystr :=
  last (declared_names md).

(** Invariants of a snapshot. *)
Definition keyed_by_command (self : index) : Prop :=
  ∀ k info, _handler_cache self !! k = Some info → hi_command info = k.

Definition aliases_resolve (self : index) : Prop :=
  ∀ a c, _alias_to_command self !! a = Some c →
         ∃ info, _handler_cache self !! c = Some info ∧ hi_command info = c.

Definition aliases_registered (self : index) : Prop :=
  ∀ c info a, _handler_cache self !! c = Some info → a ∈ hi_aliases info →
              is_Some (_alias_to_command self !! strip_slash a).

Definition consistent (self : index) : Prop :=
  keyed_by_command self ∧ aliases_resolve self ∧ aliases_registered self.

(** Following the specification's words: resolving an alias that a record
    of the snapshot carries returns that record. *)
Definition registered_aliases_resolve (self : index) : Prop :=
  ∀ c info a, _handler_cache self !! c = Some info → a ∈ hi_aliases info →
              resolve self a = Some info.

(** The send calls of a trace. *)
Definition send_calls (w : world) : list result := Run.sends_of (w_trace w).

End Props.

(** ** Concrete inputs used in the examples *)

Module Sample.

Definition fromURL (url : pystr) : ctor_outcome := Built (Image (Some url) None).

(** A handler that yields nothing and leaves the event alone. *)
Definition quiet : handler_fn := AsyncGenFn (fun _ h => ([], None, h)).

Definition mute_md : StarHandlerMetadata :=
  {| handler_module_path := u "data.plugins.group_admin.main";
     desc := u "mute a member";
     event_filters := [CommandFilter (u "禁言") (AliasSet [u "mute"]);
                       PermissionTypeFilter];
     handler := quiet |}.

Definition group_admin : star :=
  {| name := Some (u "group_admin");
     module_path := Some (u "data.plugins.group_admin.main");
     activated := true;
     star_cls := Some 1 |}.

(** A handler that raises before yielding anything. *)
Definition broken : handler_fn :=
  AsyncGenFn (fun _ h => ([], Some (OtherException (u "boom")), h)).

Definition checkin_md : StarHandlerMetadata :=
  {| handler_module_path := u "data.plugins.group_admin.main";
     desc := u "daily check-in";
     event_filters := [CommandFilter (u "签到") AliasOther];
     handler := broken |}.

Definition hst : host :=
  {| get_all_stars := Some [group_admin];
     star_handlers_registry := [Metadata mute_md; Metadata checkin_md];
     image_fromURL := fromURL;
     send_raises := fun _ _ => false |}.

Definition cfg : config :=
  {| enabled := true; whitelist := []; blacklist := [];
     allow_admin_commands := true; admin_users := [u "10001"];
     bot_user_id := u "bot_self"; enable_forward := true;
     forward_threshold := 1500 |}.

Definition strict_cfg : config :=
  {| enabled := true; whitelist := [u "mute"]; blacklist := [];
     allow_admin_commands := false; admin_users := [u "10001"];
     bot_user_id := u "bot_self"; enable_forward := true;
     forward_threshold := 1500 |}.

Definition deny_cfg : config :=
  {| enabled := true; whitelist := []; blacklist := [u "mute"];
     allow_admin_commands := true; admin_users := [];
     bot_user_id := u "bot_self"; enable_forward := true;
     forward_threshold := 1500 |}.

Definition idx : index := Index._build_handler_cache hst Index.blank.

Definition admin_event : AstrMessageEvent :=
  {| self_ref := 1%positive; sender_id := u "10001";
     platform_name := u "aiocqhttp"; self_id := u "42" |}.

Definition user_event : AstrMessageEvent :=
  {| self_ref := 1%positive; sender_id := u "20002";
     platform_name := u "aiocqhttp"; self_id := u "42" |}.

(** The event holds the text "hello"; its message object, at location 2,
    holds the matching one-segment chain. *)
Definition heap0 : heap :=
  <[1%positive := <["message_str" := VStr (u "hello")]>
                    (<["message_obj" := VRef 2%positive]> ∅)]>
  (<[2%positive := <["message" := VComponents [Plain (u "hello")]]> ∅]> ∅).

Definition world0 : world :=
  {| w_index := Index.blank; w_heap := heap0; w_trace := [] |}.

Definition mute_call : kwargs :=
  {| kw_command := Some (u "禁言"); kw_args := Some (u "60");
     kw_at_qq_list := Some [u "123"]; kw_reply_image_url := None;
     kw_as_bot := None |}.

Definition checkin_call : kwargs :=
  {| kw_command := Some (u "签到"); kw_args := None;
     kw_at_qq_list := Some [u "123"]; kw_reply_image_url := None;
     kw_as_bot := Some true |}.

Definition short_cfg : config :=
  {| enabled := true; whitelist := []; blacklist := [];
     allow_admin_commands := true; admin_users := [];
     bot_user_id := u "bot_self"; enable_forward := true;
     forward_threshold := 3 |}.

Definition flaky_hst : host :=
  {| get_all_stars := Some [group_admin];
     star_handlers_registry := [Metadata mute_md];
     image_fromURL := fromURL;
     send_raises := fun sent _ => match sent with [] => true | _ => false end |}.

Definition hello_chain : result := RObject (Some [Plain (u "hello")]) None.

Definition blank_call : kwargs :=
  {| kw_command := Some (u "   "); kw_args := Some (u "60");
     kw_at_qq_list := Some [u "123"]; kw_reply_image_url := None;
     kw_as_bot := Some true |}.

Definition mute_info : handler_info :=
  {| hi_command := u "禁言"; hi_description := u "mute a member";
     hi_plugin := u "group_admin"; hi_aliases := [u "mute"];
     hi_is_admin := true; hi_handler := mute_md;
     hi_module_path := u "data.plugins.group_admin.main" |}.

(** A handler that carries two command filters. *)
Definition twin_md : StarHandlerMetadata :=
  {| handler_module_path := u "data.plugins.group_admin.main";
     desc := u "";
     event_filters := [CommandFilter (u "kick") AliasOther;
                       CommandFilter (u "ban") AliasOther];
     handler := quiet |}.

Definition twin_hst : host :=
  {| get_all_stars := Some [group_admin];
     star_handlers_registry := [Metadata twin_md];
     image_fromURL := fromURL;
     send_raises := fun _ _ => false |}.

Definition wrapped : BotIdentityEventWrapper :=
  Wrapper.init user_event (u "bot_self").

(** Two handlers whose command filters declare the same alias. *)
Definition kick_md : StarHandlerMetadata :=
  {| handler_module_path := u "data.plugins.group_admin.main";
     desc := u "remove a member";
     event_filters := [CommandFilter (u "kick") (AliasSet [u "k"])];
     handler := quiet |}.

Definition ban_md : StarHandlerMetadata :=
  {| handler_module_path := u "data.plugins.group_admin.main";
     desc := u "ban a member";
     event_filters := [CommandFilter (u "ban") (AliasSet [u "k"])];
     handler := quiet |}.

Definition clash_hst : host :=
  {| get_all_stars := Some [group_admin];
     star_handlers_registry := [Metadata kick_md; Metadata ban_md];
     image_fromURL := fromURL;
     send_raises := fun _ _ => false |}.

Definition kick_info : handler_info :=
  {| hi_command := u "kick"; hi_description := u "remove a member";
     hi_plugin := u "group_admin"; hi_aliases := [u "k"];
     hi_is_admin := false; hi_handler := kick_md;
     hi_module_path := u "data.plugins.group_admin.main" |}.

Definition ban_info : handler_info :=
  {| hi_command := u "ban"; hi_description := u "ban a member";
     hi_plugin := u "group_admin"; hi_aliases := [u "k"];
     hi_is_admin := false; hi_handler := ban_md;
     hi_module_path := u "data.plugins.group_admin.main" |}.

End Sample.

(** ** [list_executable_commands] *)

Module Listing.

Import Run.

(** An element of [executable_commands]. *)
Record executable := {
  ex_command : pystr;
  ex_description : pystr;
  ex_plugin : pystr;
  ex_aliases : list pystr
}.

(** An element of a list of [plugins_dict]. *)
Record listed := {
  li_command : pystr;
  li_description : pystr;
  li_aliases : list pystr
}.

(** The dictionary handed to [json.dumps]; [plugins] keeps the insertion
    order of its keys. *)
Record listing := {
  total_count : nat;
  plugins : list (pystr * list listed)
}.

Section WithRuntime.

(** [str.lower] *)
Variable lower : pystr -> pystr.

(** [d.items()] for the handler cache, in the iteration order of the
    dictionary. *)
Variable items : gmap pystr handler_info -> list (pystr * handler_info).

Variable cfg : config.

(** Whether the first loop keeps an item. *)
Definition keeps (self : index) (event : AstrMessageEvent) (category : pystr)
    (item : pystr * handler_info) : bool :=
  if negb (fst (_can_execute cfg self (fst item) event)) then false
  else if truthy category
          && negb (contains (lower category) (lower (hi_plugin (snd item))))
  then false
  else true.

Definition to_executable (item : pystr * handler_info) : executable :=
  {| ex_command := fst item;
     ex_description := hi_description (snd item);
     ex_plugin := hi_plugin (snd item);
     ex_aliases := hi_aliases (snd item) |}.

Definition collect (self : index) (event : AstrMessageEvent) (category : pystr)
  : list executable :=
  map to_executable
      (List.filter (keeps self event category) (items (_handler_cache self))).

Definition to_listed (cmd : executable) : listed :=
  {| li_command := ex_command cmd;
     li_description := ex_description cmd;
     li_aliases := ex_aliases cmd |}.

(** One step of the grouping loop: create the list of the plugin if it is
    new, then append. *)
Fixpoint group_add (plugins_dict : list (pystr * list listed))
    (cmd : executable) : list (pystr * list listed) :=
  match plugins_dict with
  | [] => [(ex_plugin cmd, [to_listed cmd])]
  | (plugin, cmds) :: rest =>
    if decide (plugin = ex_plugin cmd)
    then (plugin, cmds ++ [to_listed cmd]) :: rest
    else (plugin, cmds) :: group_add rest cmd
  end.

(** The number of commands held by a [plugins_dict]. *)
Definition group_sizes (d : list (pystr * list listed)) : nat :=
  list_sum (map (fun g => length (snd g)) d).

Definition group (executable_commands : list executable)
  : list (pystr * list listed) :=
  fold_left group_add executable_commands [].

Definition list_executable_commands (hst : host) (event : AstrMessageEvent)
    (kw_category : option pystr) : M listing :=
  let category := strip (default [] kw_category) in
  self ← get_index;
  _ ← (if (size (_handler_cache self) =? 0)%nat then
         _ ← log_call Call_build_handler_cache;
         put_index (Index._build_handler_cache hst self)
       else mret tt);
  self ← get_index;
  let executable_commands := collect self event category in
  mret {| total_count := length executable_commands;
          plugins := group executable_commands |}.

End WithRuntime.

End Listing.

(** ** Further notions used to state the properties *)

Module Frame.

Import Index.

(** The computation [m] leaves the part [f] of the world as it is. *)
Definition preserves {X A : Type} (f : world -> X) (m : M A) : Prop :=
  ∀ w, f (snd (m w)) = f w.

(** The index that [execute_command] and [list_executable_commands] work
    with: rebuilt when the cache is empty. *)
Definition lazy_index (hst : host) (self : index) : index :=
  if (size (_handler_cache self) =? 0)%nat
  then _build_handler_cache hst self
  else self.

Definition lazy_calls (self : index) : list call :=
  if (size (_handler_cache self) =? 0)%nat
  then [Call_build_handler_cache]
  else [].

(** A segment that is plain text or mentions one of [at_qq_list]. *)
Definition text_or_listed_mention (at_qq_list : list pystr) (c : component)
  : Prop :=
  (∃ t, c = Plain t) ∨ (∃ qq, c = At qq ∧ qq ∈ at_qq_list).

(** The targets of the mention segments of a chain, in order. *)
Definition mentions (cs : list component) : list pystr :=
  omap (fun c => match c with At qq => Some qq | _ => None end) cs.

(** The target that a token of the arguments stands for in placeholder
    mode: [at_qq_list[i]] for a token "@i" with [i] in range. *)
Definition placeholder_target (at_qq_list : list pystr) (part : pystr)
  : option pystr :=
  if startswith (u "@") part && (1 <? length part)%nat && isdigit (drop 1 part)
  then match int_of (drop 1 part) with
       | Some idx => at_qq_list !! idx
       | None => None
       end
  else None.

(** The object that [execute_command] hands to the handler. *)
Definition bound_event (cfg : config) (event : AstrMessageEvent)
    (as_bot : bool) : pyevent :=
  if as_bot then Wrap (Wrapper.init event (bot_user_id cfg)) else Orig event.

(** The heap once the synthesized segments, if any are due and could be
    built, have been stored in the message object of the event. *)
Definition installed (due : bool) (built : pystr + list component)
    (ev : pyevent) (h : heap) : heap :=
  if due then
    match built with
    | inl _ => h
    | inr components =>
      match Ev.message_obj_with_message h ev with
      | Some mo =>
        match Obj.value_setattr h mo "message" (VComponents components) with
        | Some h' => h'
        | None => h
        end
      | None => h
      end
    end
  else h.

(** The heap that the handler is started on: the text of the event is
    the command line and the synthesized segments are in place. *)
Definition prepared_heap (cfg : config) (hst : host) (event : AstrMessageEvent)
    (actual_command args : pystr) (at_qq_list : list pystr)
    (reply_image_url : pystr) (as_bot : bool) (h : heap) : heap :=
  installed (nonempty at_qq_list || truthy reply_image_url)
    (Builder._build_message_components (image_fromURL hst) actual_command args
       at_qq_list (Some reply_image_url))
    (bound_event cfg event as_bot)
    (Obj.setattr h (self_ref event) "message_str"
       (VStr (if truthy args then u "/" ++ actual_command ++ u " " ++ args
              else u "/" ++ actual_command))).

(** The test that the placeholder loop applies to a token. *)
Definition placeholder_shaped (part : pystr) : bool :=
  startswith (u "@") part && (1 <? length part)%nat && isdigit (drop 1 part).

(** A token that passes the test and on which [int] raises. *)
Definition unreadable_placeholder (part : pystr) : Prop :=
  placeholder_shaped part = true ∧ int_of (drop 1 part) = None.

(** [d.get(k)] on a response dictionary. *)
Fixpoint dict_get (d : list (string * json)) (k : string) : option json :=
  match d with
  | [] => None
  | (k', v) :: d' => if decide (k' = k) then Some v else dict_get d' k
  end.

(** The enumeration of a dictionary lists exactly its entries. *)
Definition enumerates
    (items : gmap pystr handler_info -> list (pystr * handler_info)) : Prop :=
  ∀ m k v, (k, v) ∈ items m ↔ m !! k = Some v.

End Frame.

(** ** A concrete listing *)

Module ListingSample.

Import Listing.

Definition mute_listed : listed :=
  {| li_command := u "禁言"; li_description := u "mute a member";
     li_aliases := [u "mute"] |}.

Definition checkin_listed : listed :=
  {| li_command := u "签到"; li_description := u "daily check-in";
     li_aliases := [] |}.

Definition listing0 : listing :=
  {| total_count := 2;
     plugins := [(u "group_admin", [checkin_listed; mute_listed])] |}.

End ListingSample.

(** * Properties *)

Import Index Props.

(** Closed decidable goals, such as membership in a literal list. *)
Ltac by_decide :=
  lazymatch goal with
  | |- ¬ _ =>
    refine (proj1 (bool_decide_eq_false _) _); vm_compute; reflexivity
  | |- _ → False =>
    refine (proj1 (bool_decide_eq_false _) _); vm_compute; reflexivity
  | |- _ => refine (bool_decide_unpack _ _); vm_compute; exact I
  end.

(** ** Message synthesis *)

(** C3: the synthesizer yields the three segment lists fixed by the
    specification: placeholder mode on ("禁言", "@0 60", ["123"]), trailing
    mode on ("禁言", "60", ["123"]), and the bare command on ("签到", "", []),
    each without a quoted image. *)
Theorem build_message_components_examples (fromURL : pystr -> ctor_outcome) :
  Builder._build_message_components fromURL (u "禁言") (u "@0 60") [u "123"] None
    = inr [Plain (u "/禁言"); At (u "123"); Plain (u " 60")]
  ∧ Builder._build_message_components fromURL (u "禁言") (u "60") [u "123"] None
    = inr [Plain (u "/禁言"); At (u "123"); Plain (u " 60")]
  ∧ Builder._build_message_components fromURL (u "签到") (u "") [] None
    = inr [Plain (u "/签到")].
Proof. repeat split; vm_compute; reflexivity. Qed.

(** ** Policy gate *)

Lemma mem_true (x : pystr) (l : list pystr) : mem x l = true ↔ x ∈ l.
Proof. unfold mem. apply bool_decide_eq_true. Qed.

Lemma mem_false (x : pystr) (l : list pystr) : mem x l = false ↔ x ∉ l.
Proof. unfold mem. apply bool_decide_eq_false. Qed.

Lemma nonempty_false {A} (l : list A) : nonempty l = false ↔ l = [].
Proof. destruct l; simpl; split; congruence. Qed.

Lemma whitelist_check_passes cfg c a :
  whitelist_passes cfg c a →
  nonempty (whitelist cfg)
  && (negb (mem a (whitelist cfg)) && negb (mem c (whitelist cfg))) = false.
Proof.
  intros [Hw | [Hw | Hw]].
  - rewrite Hw. reflexivity.
  - apply mem_true in Hw. rewrite Hw. simpl. apply andb_false_r.
  - apply mem_true in Hw. rewrite Hw. simpl. rewrite andb_false_r.
    apply andb_false_r.
Qed.

Lemma blacklist_check_passes cfg c a :
  blacklist_passes cfg c a →
  nonempty (blacklist cfg)
  && (mem a (blacklist cfg) || mem c (blacklist cfg)) = false.
Proof.
  intros [Ha Hc]. apply mem_false in Ha, Hc. rewrite Ha, Hc.
  apply andb_false_r.
Qed.

(** C2: on an admin-only command that resolves and passes the enable,
    whitelist and blacklist checks, a caller listed in [admin_users] is
    allowed whatever [allow_admin_commands] says; a caller not listed is
    denied when the flag is off and allowed when it is on. *)
Theorem can_execute_admin_gate (cfg : config) (self : index)
    (command : pystr) (event : AstrMessageEvent) (info : handler_info) :
  enabled cfg = true →
  resolve self command = Some info →
  hi_is_admin info = true →
  whitelist_passes cfg (strip_slash command) (canonical self command) →
  blacklist_passes cfg (strip_slash command) (canonical self command) →
  (sender_id event ∈ admin_users cfg →
     _can_execute cfg self command event = (true, AllowedAdminUser))
  ∧ (sender_id event ∉ admin_users cfg → allow_admin_commands cfg = false →
     _can_execute cfg self command event
       = (false, NeedsAdmin (strip_slash command)))
  ∧ (sender_id event ∉ admin_users cfg → allow_admin_commands cfg = true →
     _can_execute cfg self command event = (true, Allowed)).
Proof.
  intros Hen Hres Hadm Hwl Hbl.
  unfold resolve, canonical in *. unfold _can_execute.
  rewrite Hen. simpl. rewrite Hres.
  rewrite (whitelist_check_passes _ _ _ Hwl).
  rewrite (blacklist_check_passes _ _ _ Hbl).
  rewrite Hadm.
  repeat split.
  - intros Hin. apply mem_true in Hin. rewrite Hin. reflexivity.
  - intros Hin Hflag. apply mem_false in Hin. rewrite Hin, Hflag. reflexivity.
  - intros Hin Hflag. apply mem_false in Hin. rewrite Hin, Hflag. reflexivity.
Qed.

(** C8: for a command that resolves while the executor is enabled, with
    stripped form [c] and canonical form [a]: under a non-empty whitelist,
    either form being listed passes the whitelist check: the verdict is the
    one obtained with no whitelist at all, it is never the whitelist
    denial, and the call is allowed whenever neither form is blacklisted
    and the administrator rule does not object; neither form being listed
    denies.  Under a non-empty blacklist, either form being listed
    denies. *)
Theorem can_execute_lists_both_forms (cfg : config) (self : index)
    (command : pystr) (event : AstrMessageEvent) (info : handler_info) :
  enabled cfg = true →
  resolve self command = Some info →
  strip_slash command ≠ canonical self command →
  (whitelist cfg ≠ [] →
     (strip_slash command ∈ whitelist cfg ∨ canonical self command ∈ whitelist cfg) →
     _can_execute cfg self command event
       = _can_execute (with_whitelist cfg []) self command event)
  ∧ (whitelist cfg ≠ [] →
     strip_slash command ∉ whitelist cfg →
     canonical self command ∉ whitelist cfg →
     _can_execute cfg self command event
       = (false, NotWhitelisted (strip_slash command)))
  ∧ (blacklist cfg ≠ [] →
     (strip_slash command ∈ blacklist cfg ∨ canonical self command ∈ blacklist cfg) →
     fst (_can_execute cfg self command event) = false)
  ∧ (whitelist cfg ≠ [] →
     (strip_slash command ∈ whitelist cfg ∨ canonical self command ∈ whitelist cfg) →
     ∀ name, snd (_can_execute cfg self command event) ≠ NotWhitelisted name)
  ∧ (whitelist cfg ≠ [] →
     (strip_slash command ∈ whitelist cfg ∨ canonical self command ∈ whitelist cfg) →
     strip_slash command ∉ blacklist cfg →
     canonical self command ∉ blacklist cfg →
     (hi_is_admin info = true →
      sender_id event ∈ admin_users cfg ∨ allow_admin_commands cfg = true) →
     fst (_can_execute cfg self command event) = true).
Proof.
  intros Hen Hres _.
  assert (Hpass : (strip_slash command ∈ whitelist cfg
                   ∨ canonical self command ∈ whitelist cfg) →
                  nonempty (whitelist cfg)
                  && (negb (mem (canonical self command) (whitelist cfg))
                      && negb (mem (strip_slash command) (whitelist cfg)))
                  = false).
  { intros [Hin | Hin]; apply mem_true in Hin; rewrite Hin; simpl;
      [rewrite andb_false_r |]; apply andb_false_r. }
  unfold resolve, canonical in *. unfold _can_execute. simpl.
  rewrite Hen. simpl. rewrite Hres.
  split; [| split; [| split; [| split]]].
  - intros _ Hin.
    rewrite whitelist_check_passes; [reflexivity |].
    unfold whitelist_passes, canonical. tauto.
  - intros Hne Hc Ha. apply mem_false in Hc, Ha. rewrite Hc, Ha.
    destruct (whitelist cfg); [congruence | reflexivity].
  - intros Hne Hin.
    destruct (nonempty (whitelist cfg) && _); [reflexivity |].
    assert (Hb : nonempty (blacklist cfg)
                 && (mem (default (strip_slash command)
                            (_alias_to_command self !! strip_slash command))
                         (blacklist cfg)
                     || mem (strip_slash command) (blacklist cfg)) = true).
    { apply andb_true_intro. split.
      - destruct (blacklist cfg); [congruence | reflexivity].
      - apply orb_true_iff. destruct Hin as [Hin | Hin];
          apply mem_true in Hin; auto. }
    rewrite Hb. reflexivity.
  - intros _ Hin name. rewrite (Hpass Hin).
    destruct (nonempty (blacklist cfg) && _); [discriminate |].
    destruct (hi_is_admin info); [| discriminate].
    destruct (mem (sender_id event) (admin_users cfg)); [discriminate |].
    destruct (negb (allow_admin_commands cfg)); discriminate.
  - intros _ Hin Hc Ha Hadm. rewrite (Hpass Hin).
    apply mem_false in Hc, Ha. rewrite Hc, Ha. simpl. rewrite andb_false_r.
    destruct (hi_is_admin info); [| reflexivity].
    destruct (Hadm eq_refl) as [Hu | Hflag].
    + apply mem_true in Hu. rewrite Hu. reflexivity.
    + rewrite Hflag. simpl.
      destruct (mem (sender_id event) (admin_users cfg)); reflexivity.
Qed.

(** ** Early rejection of an empty command *)

(** C10: when the [command] argument is absent or blank, [execute_command]
    returns the missing-parameter failure payload and leaves the world as
    it was: the index is not rebuilt, no policy check or other call is
    made, and the event is not touched. *)
Theorem execute_command_missing_command (cfg : config) (hst : host)
    (event : AstrMessageEvent) (kw : kwargs) (w : world) :
  strip (default [] (kw_command kw)) = [] →
  Exec.execute_command cfg hst event kw w
    = (Returns (JObj [("success", JBool false);
                      ("error", JStr (u "缺少必需参数: command"))]), w).
Proof.
  intros Hblank. unfold Exec.execute_command. rewrite Hblank. reflexivity.
Qed.

(** ** Identity substitution wrapper *)

Lemma getattr_setattr_same (h : heap) (l : loc) (x : string) (v : value) :
  Obj.getattr (Obj.setattr h l x v) l x = Some v.
Proof.
  unfold Obj.getattr, Obj.setattr, Obj.attrs_of.
  rewrite lookup_insert_eq. simpl. apply lookup_insert_eq.
Qed.

Lemma getattr_setattr_other_name (h : heap) (l : loc) (x y : string) (v : value) :
  x ≠ y → Obj.getattr (Obj.setattr h l x v) l y = Obj.getattr h l y.
Proof.
  intros Hxy. unfold Obj.getattr, Obj.setattr, Obj.attrs_of.
  rewrite lookup_insert_eq. simpl. rewrite lookup_insert_ne by done.
  reflexivity.
Qed.

Lemma getattr_setattr_other_loc (h : heap) (l l' : loc) (x y : string) (v : value) :
  l ≠ l' → Obj.getattr (Obj.setattr h l x v) l' y = Obj.getattr h l' y.
Proof.
  intros Hl. unfold Obj.getattr, Obj.setattr, Obj.attrs_of.
  rewrite lookup_insert_ne by done. reflexivity.
Qed.

(** C7, as the code has it: [get_sender_id] returns the substituted
    identity; an attribute read is answered by the wrapped event for every
    name except the wrapper's two fields and the members that ordinary
    lookup finds on the wrapper class; an attribute write under any name
    other than the two fields leaves the wrapper as it is and is performed
    on the wrapped event itself, where the original event then shows the
    new value. *)
Theorem wrapper_delegation (h : heap) (e : AstrMessageEvent) (bot : pystr)
    (x : string) (v : value) :
  Wrapper.get_sender_id (Wrapper.init e bot) = VStr bot
  ∧ (x ≠ "_original_event" → x ≠ "_bot_user_id" → x ∉ Wrapper.class_namespace →
     Wrapper.read h (Wrapper.init e bot) x = Obj.getattr h (self_ref e) x)
  ∧ (x ≠ "_original_event" → x ≠ "_bot_user_id" →
     Wrapper.write h (Wrapper.init e bot) x v
       = Some (Wrapper.init e bot, Obj.setattr h (self_ref e) x v)
     ∧ Obj.getattr (Obj.setattr h (self_ref e) x v) (self_ref e) x = Some v).
Proof.
  split; [reflexivity |]. split.
  - intros H1 H2 H3. unfold Wrapper.read.
    destruct (decide (x = "_original_event")) as [|_]; [contradiction |].
    destruct (decide (x = "_bot_user_id")) as [|_]; [contradiction |].
    destruct (decide (x ∈ Wrapper.class_namespace)) as [|_]; [contradiction |].
    reflexivity.
  - intros H1 H2. split; [| apply getattr_setattr_same].
    unfold Wrapper.write, Wrapper.__setattr__.
    destruct (decide (x = "_original_event")) as [|_]; [contradiction |].
    destruct (decide (x = "_bot_user_id")) as [|_]; [contradiction |].
    reflexivity.
Qed.

Lemma wrapper_delegation_witness :
  Wrapper.read Sample.heap0 Sample.wrapped "message_str" = Some (VStr (u "hello"))
  ∧ Wrapper.write Sample.heap0 Sample.wrapped "message_str" (VStr (u "/mute"))
    = Some (Sample.wrapped,
            Obj.setattr Sample.heap0 1%positive "message_str" (VStr (u "/mute"))).
Proof.
  destruct (wrapper_delegation Sample.heap0 Sample.user_event (u "bot_self")
              "message_str" (VStr (u "/mute"))) as (_ & Hread & Hwrite).
  split.
  - unfold Sample.wrapped. rewrite Hread.
    + vm_compute. reflexivity.
    + discriminate.
    + discriminate.
    + by_decide.
  - apply Hwrite; discriminate.
Defined.

(** The claim of C7 fails as stated for the reads of the wrapper's own
    fields: [wrapper._bot_user_id] is the substituted identity, while the
    wrapped event has no such attribute. *)
Lemma wrapper_read_own_field_not_delegated :
  Wrapper.read Sample.heap0 Sample.wrapped "_bot_user_id"
    = Some (VStr (u "bot_self"))
  ∧ Obj.getattr Sample.heap0 (self_ref Sample.user_event) "_bot_user_id" = None.
Proof. split; vm_compute; reflexivity. Qed.

(** ** Witnesses for the policy gate and the early rejection *)

Lemma can_execute_admin_gate_witness :
  resolve Sample.idx (u "mute") = Some Sample.mute_info
  ∧ _can_execute Sample.strict_cfg Sample.idx (u "mute") Sample.admin_event
    = (true, AllowedAdminUser)
  ∧ _can_execute Sample.strict_cfg Sample.idx (u "mute") Sample.user_event
    = (false, NeedsAdmin (u "mute"))
  ∧ _can_execute Sample.cfg Sample.idx (u "mute") Sample.user_event
    = (true, Allowed).
Proof.
  assert (Hres : resolve Sample.idx (u "mute") = Some Sample.mute_info)
    by (vm_compute; reflexivity).
  split; [exact Hres |].
  assert (Hwl : whitelist_passes Sample.strict_cfg (strip_slash (u "mute"))
                  (canonical Sample.idx (u "mute"))).
  { right. right. by_decide. }
  assert (Hbl : ∀ c a, blacklist_passes Sample.strict_cfg c a).
  { intros c a. split; apply not_elem_of_nil. }
  assert (Hwl' : whitelist_passes Sample.cfg (strip_slash (u "mute"))
                   (canonical Sample.idx (u "mute"))).
  { left. reflexivity. }
  pose proof (can_execute_admin_gate Sample.strict_cfg Sample.idx (u "mute")
                Sample.admin_event Sample.mute_info eq_refl Hres eq_refl Hwl
                (Hbl _ _)) as (Ha & _ & _).
  pose proof (can_execute_admin_gate Sample.strict_cfg Sample.idx (u "mute")
                Sample.user_event Sample.mute_info eq_refl Hres eq_refl Hwl
                (Hbl _ _)) as (_ & Hd & _).
  pose proof (can_execute_admin_gate Sample.cfg Sample.idx (u "mute")
                Sample.user_event Sample.mute_info eq_refl Hres eq_refl Hwl'
                (Hbl _ _)) as (_ & _ & Hy).
  split; [| split].
  - apply Ha. by_decide.
  - apply Hd; [| reflexivity].
    by_decide.
  - apply Hy; [| reflexivity].
    by_decide.
Defined.

Lemma can_execute_lists_both_forms_witness :
  strip_slash (u "mute") ≠ canonical Sample.idx (u "mute")
  ∧ _can_execute Sample.strict_cfg Sample.idx (u "mute") Sample.admin_event
    = _can_execute (with_whitelist Sample.strict_cfg []) Sample.idx (u "mute")
        Sample.admin_event
  ∧ fst (_can_execute Sample.deny_cfg Sample.idx (u "mute") Sample.admin_event)
    = false
  ∧ fst (_can_execute Sample.strict_cfg Sample.idx (u "mute") Sample.admin_event)
    = true.
Proof.
  assert (Hres : resolve Sample.idx (u "mute") = Some Sample.mute_info)
    by (vm_compute; reflexivity).
  assert (Hne : strip_slash (u "mute") ≠ canonical Sample.idx (u "mute"))
    by (vm_compute; discriminate).
  split; [exact Hne |].
  pose proof (can_execute_lists_both_forms Sample.strict_cfg Sample.idx
                (u "mute") Sample.admin_event Sample.mute_info eq_refl Hres Hne)
    as (Hw & _ & _ & _ & Hok).
  pose proof (can_execute_lists_both_forms Sample.deny_cfg Sample.idx
                (u "mute") Sample.admin_event Sample.mute_info eq_refl Hres Hne)
    as (_ & _ & Hb & _).
  split; [| split].
  - apply Hw; [discriminate |].
    left. by_decide.
  - apply Hb; [discriminate |].
    left. by_decide.
  - apply Hok.
    + discriminate.
    + left. by_decide.
    + apply not_elem_of_nil.
    + apply not_elem_of_nil.
    + intros _. left. by_decide.
Defined.

Lemma execute_command_missing_command_witness :
  strip (default [] (kw_command Sample.blank_call)) = []
  ∧ Exec.execute_command Sample.cfg Sample.hst Sample.user_event
      Sample.blank_call Sample.world0
    = (Returns (JObj [("success", JBool false);
                      ("error", JStr (u "缺少必需参数: command"))]),
       Sample.world0).
Proof.
  split; [reflexivity |].
  apply (execute_command_missing_command Sample.cfg Sample.hst
           Sample.user_event Sample.blank_call Sample.world0).
  reflexivity.
Defined.

(** ** The handler index *)

Section AliasFold.

Variable c : pystr.

Lemma add_alias_fold_lookup (als : list pystr) (m : gmap pystr pystr) a c' :
  fold_left (add_alias c) als m !! a = Some c' → c' = c ∨ m !! a = Some c'.
Proof.
  revert m. induction als as [| x als IH]; intros m; simpl; [auto |].
  intros H. apply IH in H as [-> | H]; [auto |].
  unfold add_alias in H. rewrite lookup_insert in H.
  case_decide; [left; congruence | right; exact H].
Qed.

Lemma add_alias_fold_keep (als : list pystr) (m : gmap pystr pystr) a :
  m !! a = Some c → fold_left (add_alias c) als m !! a = Some c.
Proof.
  revert m. induction als as [| x als IH]; intros m H; simpl; [exact H |].
  apply IH. unfold add_alias. rewrite lookup_insert.
  case_decide; [reflexivity | exact H].
Qed.

Lemma add_alias_fold_mono (als : list pystr) (m : gmap pystr pystr) a :
  is_Some (m !! a) → is_Some (fold_left (add_alias c) als m !! a).
Proof.
  revert m. induction als as [| x als IH]; intros m H; simpl; [exact H |].
  apply IH. unfold add_alias. rewrite lookup_insert.
  case_decide; [eauto | exact H].
Qed.

Lemma add_alias_fold_member (als : list pystr) (m : gmap pystr pystr) x :
  x ∈ als → fold_left (add_alias c) als m !! strip_slash x = Some c.
Proof.
  revert m. induction als as [| y als IH]; intros m Hin; simpl.
  - by apply not_elem_of_nil in Hin.
  - apply elem_of_cons in Hin as [-> | Hin]; [| by apply IH].
    apply add_alias_fold_keep. unfold add_alias. apply lookup_insert_eq.
Qed.

End AliasFold.

Section RegistryScan.

Variable M : gmap pystr (star * pystr).

Lemma record_of_Some (md : StarHandlerMetadata) (info : handler_info) :
  record_of M md = Some info →
  ∃ s cn, M !! handler_module_path md = Some (s, hi_plugin info)
          ∧ command_name (scan_filters (event_filters md)) = Some cn
          ∧ truthy cn = true
          ∧ hi_command info = strip_slash cn
          ∧ hi_handler info = md
          ∧ hi_aliases info = aliases (scan_filters (event_filters md)).
Proof.
  unfold record_of. destruct (M !! handler_module_path md) as [[s pn] |]; [| done].
  destruct (command_name _) as [cn |] eqn:Hcn; [| done].
  destruct (truthy cn) eqn:Ht; [| done].
  intros [= <-]. exists s, cn. simpl. repeat split; assumption || reflexivity.
Qed.

Lemma record_of_is_Some (md : StarHandlerMetadata) s pn cn :
  M !! handler_module_path md = Some (s, pn) →
  command_name (scan_filters (event_filters md)) = Some cn →
  truthy cn = true →
  ∃ info, record_of M md = Some info ∧ hi_command info = strip_slash cn.
Proof.
  intros HM Hcn Ht. unfold record_of. rewrite HM, Hcn, Ht. eauto.
Qed.

Lemma scan_handler_consistent (self : index) (entry : registry_entry) :
  consistent self → consistent (scan_handler M self entry).
Proof.
  intros (Hk & Hr & Hg). destruct entry as [md |]; [| done]. simpl.
  destruct (record_of M md) as [info |]; [| done].
  repeat split.
  - intros k i. simpl. rewrite lookup_insert.
    case_decide; [congruence | apply Hk].
  - intros a c'. simpl. intros Ha.
    apply add_alias_fold_lookup in Ha as [-> | Ha].
    + exists info. by rewrite lookup_insert_eq.
    + destruct (Hr _ _ Ha) as (i & Hi & Hc). rewrite lookup_insert.
      case_decide; [exists info; subst; auto | eauto].
  - intros c' i a. simpl. rewrite lookup_insert.
    case_decide.
    + intros [= <-] Hin. rewrite (add_alias_fold_member _ _ _ _ Hin). eauto.
    + intros Hi Hin. apply add_alias_fold_mono. eapply Hg; eauto.
Qed.

Lemma scan_registry_consistent (reg : list registry_entry) (self : index) :
  consistent self → consistent (fold_left (scan_handler M) reg self).
Proof.
  revert self. induction reg as [| e reg IH]; intros self H; simpl; [exact H |].
  apply IH, scan_handler_consistent, H.
Qed.

Lemma scan_registry_lookup (reg : list registry_entry) (self : index) k info :
  _handler_cache (fold_left (scan_handler M) reg self) !! k = Some info →
  _handler_cache self !! k = Some info
  ∨ ∃ md, Metadata md ∈ reg ∧ record_of M md = Some info ∧ hi_command info = k.
Proof.
  revert self. induction reg as [| e reg IH]; intros self; simpl; [auto |].
  intros H. apply IH in H as [H | (md & Hin & Hrec & Hc)].
  - destruct e as [md |]; simpl in H; [| auto].
    destruct (record_of M md) as [i |] eqn:Hrec; [| auto]. simpl in H.
    rewrite lookup_insert in H. case_decide; [| auto].
    right. exists md. injection H as <-. split; [apply elem_of_cons; auto | auto].
  - right. exists md. split; [apply elem_of_cons; auto | auto].
Qed.

Lemma scan_handler_keeps_keys (self : index) (entry : registry_entry) k :
  is_Some (_handler_cache self !! k) →
  is_Some (_handler_cache (scan_handler M self entry) !! k).
Proof.
  intros H. destruct entry as [md |]; [| done]. simpl.
  destruct (record_of M md) as [i |]; [| done]. simpl.
  rewrite lookup_insert. case_decide; eauto.
Qed.

Lemma scan_registry_keeps_keys (reg : list registry_entry) (self : index) k :
  is_Some (_handler_cache self !! k) →
  is_Some (_handler_cache (fold_left (scan_handler M) reg self) !! k).
Proof.
  revert self. induction reg as [| e reg IH]; intros self H; simpl; [exact H |].
  apply IH, scan_handler_keeps_keys, H.
Qed.

Lemma scan_registry_indexes (reg : list registry_entry) (self : index) md info :
  Metadata md ∈ reg → record_of M md = Some info →
  is_Some (_handler_cache (fold_left (scan_handler M) reg self)
             !! hi_command info).
Proof.
  revert self. induction reg as [| e reg IH]; intros self Hin Hrec; simpl.
  - by apply not_elem_of_nil in Hin.
  - apply elem_of_cons in Hin as [<- | Hin]; [| by apply IH].
    apply scan_registry_keeps_keys. simpl. rewrite Hrec. simpl.
    rewrite lookup_insert_eq. eauto.
Qed.

End RegistryScan.

Lemma scan_registry_no_modules (reg : list registry_entry) (self : index) :
  fold_left (scan_handler ∅) reg self = self.
Proof.
  induction reg as [| [md |] reg IH]; simpl; [done | | done].
  unfold record_of. rewrite lookup_empty. exact IH.
Qed.

(** A rebuild is one scan of the registry, started from empty dictionaries,
    against the module table of the active extensions. *)
Lemma rebuild_unfold (hst : host) (self : index) :
  _build_handler_cache hst self
  = fold_left (scan_handler (module_index (active_stars hst)))
              (star_handlers_registry hst) blank.
Proof.
  unfold _build_handler_cache, active_stars.
  destruct (get_all_stars hst) as [all_stars |].
  - destruct (List.filter activated all_stars) eqn:Hf; [| reflexivity].
    symmetry. apply scan_registry_no_modules.
  - symmetry. apply scan_registry_no_modules.
Qed.

Lemma blank_consistent : consistent blank.
Proof.
  repeat split.
  - intros k i. simpl. by rewrite lookup_empty.
  - intros a c. simpl. by rewrite lookup_empty.
  - intros c i a. simpl. by rewrite lookup_empty.
Qed.

Lemma rebuild_consistent (hst : host) (self : index) :
  consistent (_build_handler_cache hst self).
Proof.
  rewrite rebuild_unfold. apply scan_registry_consistent, blank_consistent.
Qed.

Lemma scan_registry_untouched (M : gmap pystr (star * pystr))
    (reg : list registry_entry) (self : index) (k : pystr) :
  (∀ md info, Metadata md ∈ reg → record_of M md = Some info →
              hi_command info ≠ k) →
  _handler_cache (fold_left (scan_handler M) reg self) !! k
  = _handler_cache self !! k.
Proof.
  revert self. induction reg as [| e reg IH]; intros self Hfree; [reflexivity |].
  simpl. rewrite IH.
  - destruct e as [md |]; [| reflexivity]. simpl.
    destruct (record_of M md) as [info |] eqn:Hrec; [| reflexivity]. simpl.
    apply lookup_insert_ne. eapply Hfree; [apply elem_of_cons; by left | exact Hrec].
  - intros md info Hin. apply Hfree, elem_of_cons. by right.
Qed.

Lemma add_alias_fold_untouched (c : pystr) (als : list pystr)
    (m : gmap pystr pystr) (k : pystr) :
  (∀ a, a ∈ als → strip_slash a ≠ k) →
  fold_left (add_alias c) als m !! k = m !! k.
Proof.
  revert m. induction als as [| x als IH]; intros m Hfree; [reflexivity |].
  simpl. rewrite IH.
  - unfold add_alias. apply lookup_insert_ne, Hfree, elem_of_cons. by left.
  - intros a Hin. apply Hfree, elem_of_cons. by right.
Qed.

Lemma scan_registry_alias_untouched (M : gmap pystr (star * pystr))
    (reg : list registry_entry) (self : index) (k : pystr) :
  (∀ md info a, Metadata md ∈ reg → record_of M md = Some info →
                a ∈ hi_aliases info → strip_slash a ≠ k) →
  _alias_to_command (fold_left (scan_handler M) reg self) !! k
  = _alias_to_command self !! k.
Proof.
  revert self. induction reg as [| e reg IH]; intros self Hfree; [reflexivity |].
  simpl. rewrite IH.
  - destruct e as [md |]; [| reflexivity]. simpl.
    destruct (record_of M md) as [info |] eqn:Hrec; [| reflexivity]. simpl.
    apply add_alias_fold_untouched. intros a Hin.
    eapply Hfree; [apply elem_of_cons; by left | exact Hrec | exact Hin].
  - intros md info a Hin. apply (Hfree md info a), elem_of_cons. by right.
Qed.

(** C6, as the code has it: in the snapshot produced by a rebuild, every
    alias of the alias index maps to a canonical name that has a record in
    the same snapshot; every alias carried by a record of the snapshot is
    present in the alias index and resolves to a record of the snapshot,
    the one of the command that the alias index names; and it resolves to
    the record of the very handler that declared it when no handler
    indexed later in the registry takes the same command or declares an
    alias with the same stripped form. *)
Theorem rebuild_alias_resolution (hst : host) (self : index) :
  let idx := _build_handler_cache hst self in
  (∀ a c, _alias_to_command idx !! a = Some c →
          ∃ info, _handler_cache idx !! c = Some info ∧ hi_command info = c)
  ∧ (∀ c info a, _handler_cache idx !! c = Some info → a ∈ hi_aliases info →
       ∃ info', resolve idx a = Some info'
                ∧ _alias_to_command idx !! strip_slash a
                  = Some (hi_command info'))
  ∧ (∀ before after md info a,
       star_handlers_registry hst = before ++ Metadata md :: after →
       record_of (module_index (active_stars hst)) md = Some info →
       a ∈ hi_aliases info →
       (∀ md' info', Metadata md' ∈ after →
          record_of (module_index (active_stars hst)) md' = Some info' →
          hi_command info' ≠ hi_command info
          ∧ ∀ a', a' ∈ hi_aliases info' → strip_slash a' ≠ strip_slash a) →
       _handler_cache idx !! hi_command info = Some info
       ∧ resolve idx a = Some info).
Proof.
  intros idx. destruct (rebuild_consistent hst self) as (Hk & Hr & Hg).
  fold idx in Hk, Hr, Hg. split; [exact Hr |]. split.
  - intros c info a Hc Hin.
    destruct (Hg _ _ _ Hc Hin) as [c' Ha].
    destruct (Hr _ _ Ha) as (info' & Hc' & Hcmd).
    exists info'. unfold resolve, canonical. rewrite Ha. simpl.
    split; [exact Hc' | by rewrite Hcmd].
  - intros before after md info a Hreg Hrec Hin Hlast.
    assert (Hcache : _handler_cache idx !! hi_command info = Some info).
    { unfold idx. rewrite rebuild_unfold, Hreg, fold_left_app. simpl.
      rewrite scan_registry_untouched.
      - simpl. rewrite Hrec. simpl. apply lookup_insert_eq.
      - intros md' info' Hin' Hrec'. by apply (Hlast md' info'). }
    split; [exact Hcache |].
    assert (Halias : _alias_to_command idx !! strip_slash a
                     = Some (hi_command info)).
    { unfold idx. rewrite rebuild_unfold, Hreg, fold_left_app. simpl.
      rewrite scan_registry_alias_untouched.
      - simpl. rewrite Hrec. simpl. by apply add_alias_fold_member.
      - intros md' info' a' Hin' Hrec' Ha'.
        by apply (proj2 (Hlast md' info' Hin' Hrec')). }
    unfold resolve, canonical. rewrite Halias. exact Hcache.
Qed.

Lemma rebuild_alias_resolution_witness :
  _handler_cache (_build_handler_cache Sample.hst blank) !! u "禁言"
  = Some Sample.mute_info
  ∧ resolve (_build_handler_cache Sample.hst blank) (u "mute")
    = Some Sample.mute_info.
Proof.
  pose proof (rebuild_alias_resolution Sample.hst blank) as H.
  cbv zeta in H. destruct H as (_ & _ & H).
  apply (H [] [Metadata Sample.checkin_md] Sample.mute_md Sample.mute_info
           (u "mute")).
  - reflexivity.
  - vm_compute. reflexivity.
  - apply list_elem_of_singleton. reflexivity.
  - intros md' info' Hin Hrec.
    apply list_elem_of_singleton in Hin. injection Hin as ->.
    vm_compute in Hrec. injection Hrec as <-.
    split; [vm_compute; discriminate |].
    intros a' Ha'. simpl in Ha'. by apply not_elem_of_nil in Ha'.
Defined.

(** The second half of C6 fails as stated when two commands register the
    same alias: with the handlers of [kick] and [ban] both declaring the
    alias [k], the snapshot holds the record of [kick], which carries the
    alias [k], but resolving [k] returns the record of [ban]. *)
Lemma shared_alias_resolves_to_last_command :
  _handler_cache (_build_handler_cache Sample.clash_hst blank) !! u "kick"
  = Some Sample.kick_info
  ∧ u "k" ∈ hi_aliases Sample.kick_info
  ∧ resolve (_build_handler_cache Sample.clash_hst blank) (u "k")
    = Some Sample.ban_info
  ∧ ¬ registered_aliases_resolve (_build_handler_cache Sample.clash_hst blank).
Proof.
  assert (Hkick : _handler_cache (_build_handler_cache Sample.clash_hst blank)
                    !! u "kick" = Some Sample.kick_info)
    by (vm_compute; reflexivity).
  assert (Hin : u "k" ∈ hi_aliases Sample.kick_info)
    by (apply list_elem_of_singleton; reflexivity).
  assert (Hres : resolve (_build_handler_cache Sample.clash_hst blank) (u "k")
                 = Some Sample.ban_info)
    by (vm_compute; reflexivity).
  split; [exact Hkick |]. split; [exact Hin |]. split; [exact Hres |].
  intros Hall. specialize (Hall _ _ _ Hkick Hin).
  rewrite Hres in Hall. vm_compute in Hall. discriminate.
Qed.

(** C9: the result of a rebuild does not depend on what the index held
    before, so a second rebuild against the same extensions and registry
    yields the same snapshot, record by record (name, description,
    aliases, admin flag). *)
Theorem rebuild_idempotent (hst : host) (self self' : index) :
  _build_handler_cache hst self = _build_handler_cache hst self'
  ∧ snapshot_view (_build_handler_cache hst (_build_handler_cache hst self))
    = snapshot_view (_build_handler_cache hst self).
Proof.
  split.
  - rewrite (rebuild_unfold hst self), (rebuild_unfold hst self'). reflexivity.
  - rewrite (rebuild_unfold hst (_build_handler_cache hst self)).
    rewrite (rebuild_unfold hst self). reflexivity.
Qed.

(** *** Which handlers a rebuild indexes *)

Lemma add_star_keeps (acc : gmap pystr (star * pystr)) (x : star) mp :
  is_Some (acc !! mp) → is_Some (add_star acc x !! mp).
Proof.
  intros H. unfold add_star. destruct (module_path x) as [mp0 |]; [| exact H].
  destruct (_ || _); [exact H |].
  rewrite lookup_insert. case_decide; eauto.
Qed.

Lemma add_star_fold_keeps (stars : list star) acc mp :
  is_Some (acc !! mp) → is_Some (fold_left add_star stars acc !! mp).
Proof.
  revert acc. induction stars as [| x stars IH]; intros acc H; simpl; [exact H |].
  apply IH, add_star_keeps, H.
Qed.

Lemma add_star_fold_lookup (stars : list star) acc mp s pn :
  fold_left add_star stars acc !! mp = Some (s, pn) →
  acc !! mp = Some (s, pn)
  ∨ (s ∈ stars ∧ plugin_name_of s = pn ∧ (pn ∉ skip_plugins)
     ∧ module_path s = Some mp ∧ truthy mp = true).
Proof.
  revert acc. induction stars as [| x stars IH]; intros acc; simpl; [auto |].
  intros H. apply IH in H as [H | (Hin & H)].
  - unfold add_star in H. destruct (module_path x) as [mp0 |] eqn:Hmp; [| auto].
    destruct (bool_decide _ || negb _) eqn:Hskip; [auto |].
    rewrite lookup_insert in H. case_decide as Heq; [| auto].
    injection H as <- <-. subst mp0. right.
    apply orb_false_elim in Hskip as [Hs Ht].
    apply bool_decide_eq_false in Hs. apply negb_false_iff in Ht.
    split; [apply elem_of_cons; auto | auto].
  - right. split; [apply elem_of_cons; auto | exact H].
Qed.

Lemma add_star_fold_finds (stars : list star) acc mp s :
  s ∈ stars → plugin_name_of s ∉ skip_plugins →
  module_path s = Some mp → truthy mp = true →
  is_Some (fold_left add_star stars acc !! mp).
Proof.
  revert acc. induction stars as [| x stars IH]; intros acc Hin Hs Hmp Ht; simpl.
  - by apply not_elem_of_nil in Hin.
  - apply elem_of_cons in Hin as [<- | Hin]; [| by eapply IH].
    apply add_star_fold_keeps. unfold add_star. rewrite Hmp.
    rewrite (proj2 (bool_decide_eq_false _) Hs), Ht. simpl.
    rewrite lookup_insert_eq. eauto.
Qed.

(** The module table holds exactly the modules of the active, non-excluded
    extensions. *)
Lemma module_index_owner (hst : host) (md : StarHandlerMetadata) :
  (∀ s pn, module_index (active_stars hst) !! handler_module_path md
             = Some (s, pn) → owned_by hst md pn)
  ∧ (∀ pn, owned_by hst md pn →
       is_Some (module_index (active_stars hst) !! handler_module_path md)).
Proof.
  split.
  - intros s pn H. apply add_star_fold_lookup in H as [H | H].
    + by rewrite lookup_empty in H.
    + exists s. exact H.
  - intros pn (s & Hin & <- & Hs & Hmp & Ht).
    eapply add_star_fold_finds; eauto.
Qed.

Lemma scan_filters_from (fs : list event_filter) (st : scan) :
  command_name (fold_left scan_filter fs st)
  = match last (omap filter_name fs) with
    | Some n => Some n
    | None => command_name st
    end.
Proof.
  revert st. induction fs as [| f fs IH]; intros st; [reflexivity |].
  change (fold_left scan_filter (f :: fs) st)
    with (fold_left scan_filter fs (scan_filter st f)).
  rewrite IH.
  change (omap filter_name (f :: fs))
    with (match filter_name f with
          | Some n => n :: omap filter_name fs
          | None => omap filter_name fs
          end).
  destruct f as [cn al | gn | |]; cbn [filter_name scan_filter command_name];
    try reflexivity.
  - rewrite last_cons. destruct (last (omap filter_name fs)); reflexivity.
  - rewrite last_cons. destruct (last (omap filter_name fs)); reflexivity.
Qed.

(** The name kept by the filter scan is the one of the last command or
    command-group filter. *)
Lemma scan_filters_name (md : StarHandlerMetadata) :
  command_name (scan_filters (event_filters md)) = indexed_name md.
Proof.
  unfold scan_filters, indexed_name, declared_names.
  rewrite scan_filters_from. simpl.
  destruct (last (omap filter_name (event_filters md))); reflexivity.
Qed.

(** C5, as the code has it: after a rebuild the keys of the index are
    exactly the prefix-stripped, non-empty names that the handlers of
    active, non-excluded extensions carry in their last command or
    command-group filter; every record is stored under its own command,
    comes from a registered handler of such an extension (never from one of
    the skipped extensions), and its key is one of the names declared by
    the filters of that handler, so a handler with neither kind of filter
    is never indexed. *)
Theorem rebuild_index_contents (hst : host) (self : index) :
  let idx := _build_handler_cache hst self in
  (∀ k, is_Some (_handler_cache idx !! k) ↔
        ∃ md pn n, Metadata md ∈ star_handlers_registry hst
                   ∧ owned_by hst md pn
                   ∧ indexed_name md = Some n
                   ∧ truthy n = true
                   ∧ k = strip_slash n)
  ∧ (∀ k info, _handler_cache idx !! k = Some info →
       hi_command info = k
       ∧ Metadata (hi_handler info) ∈ star_handlers_registry hst
       ∧ owned_by hst (hi_handler info) (hi_plugin info)
       ∧ (hi_plugin info ∉ skip_plugins)
       ∧ ∃ n, n ∈ declared_names (hi_handler info) ∧ k = strip_slash n).
Proof.
  intros idx. subst idx. rewrite rebuild_unfold.
  set (M := module_index (active_stars hst)).
  assert (Hrec : ∀ k info,
    _handler_cache (fold_left (scan_handler M) (star_handlers_registry hst) blank)
      !! k = Some info →
    ∃ md s n, Metadata md ∈ star_handlers_registry hst
              ∧ M !! handler_module_path md = Some (s, hi_plugin info)
              ∧ indexed_name md = Some n ∧ truthy n = true
              ∧ hi_command info = strip_slash n ∧ hi_handler info = md
              ∧ hi_command info = k).
  { intros k info H. apply scan_registry_lookup in H as [H | (md & Hin & Hr & Hk)].
    - simpl in H. by rewrite lookup_empty in H.
    - apply record_of_Some in Hr as (s & cn & HM & Hcn & Ht & Hc & Hh & _).
      rewrite scan_filters_name in Hcn.
      exists md, s, cn. repeat split; assumption. }
  split.
  - intros k. split.
    + intros [info H].
      destruct (Hrec _ _ H) as (md & s & n & Hin & HM & Hn & Ht & Hc & _ & Hk).
      exists md, (hi_plugin info), n.
      repeat split; try assumption; [| congruence].
      eapply (proj1 (module_index_owner hst md)), HM.
    + intros (md & pn & n & Hin & Hown & Hn & Ht & ->).
      apply (proj2 (module_index_owner hst md)) in Hown as [[s pn'] HM].
      rewrite <- scan_filters_name in Hn.
      destruct (record_of_is_Some M md s pn' n HM Hn Ht) as (info & Hr & <-).
      eapply scan_registry_indexes; eauto.
  - intros k info H.
    destruct (Hrec _ _ H) as (md & s & n & Hin & HM & Hn & Ht & Hc & Hh & Hk).
    pose proof (proj1 (module_index_owner hst md) _ _ HM) as Hown.
    rewrite Hh. repeat split; try assumption.
    + destruct Hown as (s' & _ & _ & Hs & _). exact Hs.
    + exists n. split; [| congruence].
      apply last_Some_elem_of. exact Hn.
Qed.

Lemma rebuild_index_contents_witness :
  is_Some (_handler_cache Sample.idx !! u "禁言")
  ∧ (hi_plugin Sample.mute_info ∉ skip_plugins).
Proof.
  unfold Sample.idx.
  pose proof (rebuild_index_contents Sample.hst blank) as H.
  cbv zeta in H. destruct H as (Hkeys & Hrecs).
  assert (Hsome : is_Some (_handler_cache (_build_handler_cache Sample.hst blank)
                             !! u "禁言")).
  { apply Hkeys. exists Sample.mute_md, (u "group_admin"), (u "禁言").
    split; [apply list_elem_of_In; left; reflexivity |].
    split; [| repeat split; reflexivity].
    exists Sample.group_admin.
    split; [apply list_elem_of_singleton; reflexivity |].
    split; [reflexivity |]. split; [by_decide |].
    split; vm_compute; reflexivity. }
  split; [exact Hsome |].
  assert (Hc : _handler_cache (_build_handler_cache Sample.hst blank)
                 !! u "禁言" = Some Sample.mute_info)
    by (vm_compute; reflexivity).
  destruct (Hrecs _ _ Hc) as (_ & _ & _ & Hskip & _). exact Hskip.
Defined.

(** The claim of C5 fails as stated: a handler of an active, non-excluded
    extension that carries the command filters "kick" and "ban" is indexed
    under "ban" only, so the declared command "kick" is missing. *)
Lemma rebuild_misses_declared_name :
  ¬ holds_exactly_declared Sample.twin_hst
      (_build_handler_cache Sample.twin_hst blank).
Proof.
  intros H. destruct (H (u "kick")) as [_ Hback].
  assert (Hsome : is_Some (_handler_cache
                             (_build_handler_cache Sample.twin_hst blank)
                             !! u "kick")).
  { apply Hback. exists Sample.twin_md, (u "group_admin"), (u "kick").
    split; [apply list_elem_of_singleton; reflexivity |].
    split; [| split; [apply elem_of_cons; left; reflexivity | reflexivity]].
    exists Sample.group_admin.
    split; [apply list_elem_of_singleton; reflexivity |].
    split; [reflexivity |]. split; [by_decide |].
    split; vm_compute; reflexivity. }
  destruct Hsome as [info Hinfo]. vm_compute in Hinfo. discriminate.
Qed.

(** ** Delivery of the captured results *)

Lemma sends_of_app (t1 t2 : list call) :
  Run.sends_of (t1 ++ t2) = Run.sends_of t1 ++ Run.sends_of t2.
Proof. unfold Run.sends_of. apply omap_app. Qed.

Lemma sends_of_sends (rs : list result) :
  Run.sends_of (map Call_send rs) = rs.
Proof.
  induction rs as [| r rs IH]; [reflexivity |].
  change (Run.sends_of (map Call_send (r :: rs)))
    with (r :: Run.sends_of (map Call_send rs)).
  by rewrite IH.
Qed.

(** The plain loop calls [send] once per result, in order, whether or not
    a call raises, and changes nothing else. *)
Lemma send_each_run (hst : host) (rs : list result) (w : world) :
  Exec.send_each hst rs w
  = (Returns tt,
     {| w_index := w_index w; w_heap := w_heap w;
        w_trace := w_trace w ++ map Call_send rs |}).
Proof.
  revert w. induction rs as [| r rs IH]; intros w; simpl.
  - rewrite app_nil_r. by destruct w.
  - unfold mbind, M_bind, Run.try_except, Exec.send.
    destruct (send_raises hst _ r); simpl; rewrite IH; simpl;
      by rewrite <- app_assoc.
Qed.

(** C4, as the code has it: the combined path is taken exactly when
    forwarding is enabled, the total length of the extracted texts exceeds
    the threshold and the platform is "aiocqhttp".  On that path, when the
    captured results carry some chain content, the combined message is
    sent once; it is the only send if that call succeeds, and if it raises
    every captured result is then sent on its own.  Off that path every
    captured result is sent exactly once, in order. *)
Theorem send_results_fan_out (cfg : config) (hst : host)
    (event : AstrMessageEvent) (rs : list result) (w : world) :
  let texts := extracted_texts rs in
  let w' := snd (Exec.send_results cfg hst event rs texts w) in
  let combined := Exec.forward_result event (flat_map chain_of rs) in
  (Exec.use_forward cfg event texts = true ↔
     enable_forward cfg = true
     ∧ (forward_threshold cfg < Z.of_nat (Exec.total_text_length texts))%Z
     ∧ platform_name event = u "aiocqhttp")
  ∧ (Exec.use_forward cfg event texts = true → flat_map chain_of rs ≠ [] →
     send_raises hst (send_calls w) combined = false →
     send_calls w' = send_calls w ++ [combined])
  ∧ (Exec.use_forward cfg event texts = true → flat_map chain_of rs ≠ [] →
     send_raises hst (send_calls w) combined = true →
     send_calls w' = send_calls w ++ combined :: rs)
  ∧ (Exec.use_forward cfg event texts = false →
     send_calls w' = send_calls w ++ rs).
Proof.
  intros texts w' combined. split; [| split; [| split]].
  - unfold Exec.use_forward.
    rewrite !andb_true_iff, Z.ltb_lt, bool_decide_eq_true. tauto.
  - intros Hfw Hne Hok. subst w'. unfold Exec.send_results. rewrite Hfw.
    unfold Run.try_except.
    destruct (flat_map chain_of rs) eqn:Hall; [congruence |].
    unfold Exec.send. fold (send_calls w). subst combined. rewrite Hok.
    unfold send_calls. simpl. by rewrite sends_of_app.
  - intros Hfw Hne Hbad. subst w'. unfold Exec.send_results. rewrite Hfw.
    unfold Run.try_except.
    destruct (flat_map chain_of rs) eqn:Hall; [congruence |].
    unfold Exec.send. fold (send_calls w). subst combined. rewrite Hbad.
    rewrite send_each_run. unfold send_calls. simpl.
    rewrite !sends_of_app, sends_of_sends. by rewrite <- app_assoc.
  - intros Hfw. subst w'. unfold Exec.send_results. rewrite Hfw.
    rewrite send_each_run. unfold send_calls. simpl.
    by rewrite sends_of_app, sends_of_sends.
Qed.

Lemma send_results_fan_out_witness :
  send_calls (snd (Exec.send_results Sample.short_cfg Sample.hst
                     Sample.user_event [Sample.hello_chain; Sample.hello_chain]
                     (extracted_texts [Sample.hello_chain; Sample.hello_chain])
                     Sample.world0))
    = [Exec.forward_result Sample.user_event
         [Plain (u "hello"); Plain (u "hello")]]
  ∧ send_calls (snd (Exec.send_results Sample.short_cfg Sample.flaky_hst
                       Sample.user_event [Sample.hello_chain; Sample.hello_chain]
                       (extracted_texts [Sample.hello_chain; Sample.hello_chain])
                       Sample.world0))
    = [Exec.forward_result Sample.user_event
         [Plain (u "hello"); Plain (u "hello")];
       Sample.hello_chain; Sample.hello_chain]
  ∧ send_calls (snd (Exec.send_results Sample.cfg Sample.hst
                       Sample.user_event [Sample.hello_chain; Sample.hello_chain]
                       (extracted_texts [Sample.hello_chain; Sample.hello_chain])
                       Sample.world0))
    = [Sample.hello_chain; Sample.hello_chain].
Proof.
  pose proof (send_results_fan_out Sample.short_cfg Sample.hst Sample.user_event
                [Sample.hello_chain; Sample.hello_chain] Sample.world0)
    as (_ & Hone & _ & _).
  pose proof (send_results_fan_out Sample.short_cfg Sample.flaky_hst
                Sample.user_event
                [Sample.hello_chain; Sample.hello_chain] Sample.world0)
    as (_ & _ & Hfall & _).
  pose proof (send_results_fan_out Sample.cfg Sample.hst Sample.user_event
                [Sample.hello_chain; Sample.hello_chain] Sample.world0)
    as (_ & _ & _ & Heach).
  split; [| split].
  - apply Hone; [vm_compute; reflexivity | discriminate | reflexivity].
  - apply Hfall; [vm_compute; reflexivity | discriminate | reflexivity].
  - apply Heach. vm_compute. reflexivity.
Defined.

(** The claim of C4 fails as stated: with forwarding enabled, threshold 3
    and platform "aiocqhttp", a single captured result that is the bare
    string "hello" selects the combined path, yet nothing at all is sent. *)
Lemma fan_out_without_chain_sends_nothing :
  Exec.use_forward Sample.short_cfg Sample.user_event
    (extracted_texts [RString (u "hello")]) = true
  ∧ send_calls (snd (Exec.send_results Sample.short_cfg Sample.hst
                       Sample.user_event [RString (u "hello")]
                       (extracted_texts [RString (u "hello")])
                       Sample.world0)) = [].
Proof. split; vm_compute; reflexivity. Qed.

(** ** State of the event after an invocation *)

(** C1 does not hold of the code: the synthesized segments are written
    into the message object that the event already holds, and the saved
    value is a reference to that same object.  After
    [execute_command(command="禁言", args="60", at_qq_list=["123"])] has
    returned its success payload the text of the event is "hello" again and
    [message_obj] is the same object, but the chain of that object is the
    synthesized one and no longer [Plain "hello"]; the same is observed
    after [execute_command(command="签到", at_qq_list=["123"], as_bot=True)],
    whose handler raises. *)
Theorem execute_command_leaves_synthesized_chain :
  let before := Sample.world0 in
  let ok := Exec.execute_command Sample.cfg Sample.hst Sample.user_event
              Sample.mute_call before in
  let ko := Exec.execute_command Sample.cfg Sample.hst Sample.user_event
              Sample.checkin_call before in
  Obj.getattr (w_heap before) 1%positive "message_str" = Some (VStr (u "hello"))
  ∧ Obj.getattr (w_heap before) 1%positive "message_obj" = Some (VRef 2%positive)
  ∧ Obj.getattr (w_heap before) 2%positive "message"
    = Some (VComponents [Plain (u "hello")])
  ∧ fst ok = Returns (JObj [("success", JBool true);
                            ("command", JStr (u "禁言"));
                            ("args", JStr (u "60"));
                            ("result", JStr (u "指令执行完成（无输出内容）"));
                            ("executed_as", JStr (u "user"))])
  ∧ Obj.getattr (w_heap (snd ok)) 1%positive "message_str"
    = Some (VStr (u "hello"))
  ∧ Obj.getattr (w_heap (snd ok)) 1%positive "message_obj"
    = Some (VRef 2%positive)
  ∧ Obj.getattr (w_heap (snd ok)) 2%positive "message"
    = Some (VComponents [Plain (u "/禁言"); At (u "123"); Plain (u " 60")])
  ∧ fst ko = Returns (JObj [("success", JBool false);
                            ("command", JStr (u "签到"));
                            ("error", JStr (u "执行失败: boom"))])
  ∧ Obj.getattr (w_heap (snd ko)) 1%positive "message_str"
    = Some (VStr (u "hello"))
  ∧ Obj.getattr (w_heap (snd ko)) 2%positive "message"
    = Some (VComponents [Plain (u "/签到"); At (u "123")]).
Proof. repeat split; vm_compute; reflexivity. Qed.

(** *** What the restoration does achieve *)

Lemma bind_returns {A B} (m : M A) (k : A → M B) (w w' : world) (b : B) :
  (m ≫= k) w = (Returns b, w') →
  ∃ a w1, m w = (Returns a, w1) ∧ k a w1 = (Returns b, w').
Proof.
  unfold mbind, M_bind. destruct (m w) as [[a | e] w1]; [eauto | discriminate].
Qed.

Lemma set_attr_orig (event : AstrMessageEvent) (x : string) (v : value)
    (w : world) :
  Run.set_attr (Orig event) x v w
  = (Returns tt,
     {| w_index := w_index w;
        w_heap := Obj.setattr (w_heap w) (self_ref event) x v;
        w_trace := w_trace w |}).
Proof. reflexivity. Qed.

Lemma restore_message_str (event : AstrMessageEvent) (msg mo : value)
    (w w' : world) :
  Exec.restore event msg mo w = (Returns tt, w') →
  Obj.getattr (w_heap w') (self_ref event) "message_str" = Some msg.
Proof.
  unfold Exec.restore. intros H.
  apply bind_returns in H as ([] & w1 & H1 & H2).
  rewrite set_attr_orig in H1. injection H1 as <-.
  destruct mo; try rewrite set_attr_orig in H2; injection H2 as <-;
    cbn [w_heap];
    try (rewrite getattr_setattr_other_name by discriminate);
    apply getattr_setattr_same.
Qed.

(** Whenever the invocation returns a payload, on the success path as on
    the exception path, the text of the event is the one it had before,
    whatever the handler did to the event. *)
Lemma invoke_restores_message_str (cfg : config) (hst : host)
    (event : AstrMessageEvent) (info : handler_info)
    (actual_command args : pystr) (at_qq_list : list pystr)
    (reply_image_url : pystr) (as_bot : bool) (w w' : world) (out : json) :
  Exec.invoke cfg hst event info actual_command args at_qq_list
    reply_image_url as_bot w = (Returns out, w') →
  Obj.getattr (w_heap w') (self_ref event) "message_str"
  = Obj.getattr (w_heap w) (self_ref event) "message_str".
Proof.
  unfold Exec.invoke. intros H.
  apply bind_returns in H as (h0 & w0 & Hg & H).
  unfold Run.get_heap in Hg. injection Hg as <- <-.
  destruct (Obj.getattr (w_heap w) (self_ref event) "message_str")
    as [msg |] eqn:Hmsg; [| discriminate].
  unfold Run.try_except at 1 in H. cbv zeta in H.
  match type of H with
  | context [match ?b w with _ => _ end] =>
    destruct (b w) as [[j | e] w1] eqn:Hbody
  end.
  - injection H as <- <-.
    apply bind_returns in Hbody as (? & wa & _ & Hbody).
    apply bind_returns in Hbody as (? & wb & _ & Hbody).
    apply bind_returns in Hbody as (rs & wc & _ & Hbody).
    apply bind_returns in Hbody as (? & wd & _ & Hbody).
    apply bind_returns in Hbody as ([] & we & Hr & Hbody).
    injection Hbody as _ <-.
    eapply restore_message_str, Hr.
  - apply bind_returns in H as ([] & w2 & Hs & H). injection H as _ <-.
    unfold Run.try_except in Hs. rewrite set_attr_orig in Hs.
    injection Hs as <-. apply getattr_setattr_same.
Qed.

(** The same for the whole of [execute_command]: every path that returns
    a payload leaves [message_str] as it found it. *)
Lemma execute_command_restores_message_str (cfg : config) (hst : host)
    (event : AstrMessageEvent) (kw : kwargs) (w w' : world) (out : json) :
  Exec.execute_command cfg hst event kw w = (Returns out, w') →
  Obj.getattr (w_heap w') (self_ref event) "message_str"
  = Obj.getattr (w_heap w) (self_ref event) "message_str".
Proof.
  unfold Exec.execute_command. cbv zeta.
  destruct (negb (truthy _)); [intros [= _ <-]; reflexivity |].
  intros H.
  apply bind_returns in H as (self0 & w0 & Hg & H).
  unfold Run.get_index in Hg. injection Hg as <- <-.
  apply bind_returns in H as ([] & w1 & Hre & H).
  assert (Hh1 : w_heap w1 = w_heap w).
  { destruct (size _ =? 0)%nat.
    - apply bind_returns in Hre as ([] & wl & Hl & Hre).
      injection Hl as <-. injection Hre as <-. reflexivity.
    - injection Hre as <-. reflexivity. }
  apply bind_returns in H as (self1 & w2 & Hg & H).
  unfold Run.get_index in Hg. injection Hg as <- <-.
  apply bind_returns in H as ([] & w3 & Hl & H). injection Hl as <-.
  destruct (_can_execute cfg (w_index w1) _ event) as [can_exec reason].
  destruct (negb can_exec); [injection H as _ <-; cbn [w_heap]; by rewrite Hh1 |].
  destruct (_handler_cache (w_index w1) !! _) as [info |];
    [| injection H as _ <-; cbn [w_heap]; by rewrite Hh1].
  apply bind_returns in H as ([] & w4 & Hl & H). injection Hl as <-.
  destruct (_get_plugin_instance hst (hi_module_path info));
    [| injection H as _ <-; cbn [w_heap]; by rewrite Hh1].
  apply invoke_restores_message_str in H. rewrite H. cbn [w_heap].
  by rewrite Hh1.
Qed.

(** * Further properties *)

Import Frame.

(** ** The policy gate as a whole *)

Lemma whitelist_check_iff cfg c a :
  nonempty (whitelist cfg)
  && (negb (mem a (whitelist cfg)) && negb (mem c (whitelist cfg))) = false
  ↔ whitelist_passes cfg c a.
Proof.
  split; [| apply whitelist_check_passes].
  unfold whitelist_passes. destruct (whitelist cfg) as [| x l] eqn:Hw; [auto |].
  simpl. intros H. apply andb_false_iff in H as [H | H];
    apply negb_false_iff, mem_true in H; auto.
Qed.

Lemma blacklist_check_iff cfg c a :
  nonempty (blacklist cfg)
  && (mem a (blacklist cfg) || mem c (blacklist cfg)) = false
  ↔ blacklist_passes cfg c a.
Proof.
  split; [| apply blacklist_check_passes].
  unfold blacklist_passes. destruct (blacklist cfg) as [| x l] eqn:Hb.
  - intros _. split; apply not_elem_of_nil.
  - simpl. intros H. apply orb_false_elim in H as [Ha Hc].
    split; by apply mem_false.
Qed.

(** A command is allowed exactly when the executor is enabled, the command
    resolves to a record, the whitelist and the blacklist let its stripped
    or canonical name through, and, for an admin-only record, the caller is
    an admin user or admin commands are allowed globally. *)
Theorem can_execute_allowed_iff (cfg : config) (self : index)
    (command : pystr) (event : AstrMessageEvent) :
  fst (_can_execute cfg self command event) = true ↔
  enabled cfg = true
  ∧ ∃ info, resolve self command = Some info
      ∧ whitelist_passes cfg (strip_slash command) (canonical self command)
      ∧ blacklist_passes cfg (strip_slash command) (canonical self command)
      ∧ (hi_is_admin info = true →
         sender_id event ∈ admin_users cfg ∨ allow_admin_commands cfg = true).
Proof.
  unfold resolve, canonical, _can_execute.
  destruct (enabled cfg); simpl; [| split; [done | intros [? _]; congruence]].
  destruct (_handler_cache self !! _) as [info |];
    [| split; [done | intros (_ & ? & ? & _); congruence]].
  pose proof (whitelist_check_iff cfg (strip_slash command)
    (default (strip_slash command)
       (_alias_to_command self !! strip_slash command))) as Hw.
  pose proof (blacklist_check_iff cfg (strip_slash command)
    (default (strip_slash command)
       (_alias_to_command self !! strip_slash command))) as Hb.
  destruct (nonempty (whitelist cfg) && _) eqn:Ew.
  { split; [done |]. intros (_ & i & _ & Hp & _).
    apply Hw in Hp. discriminate. }
  destruct (nonempty (blacklist cfg) && _) eqn:Eb.
  { split; [done |]. intros (_ & i & _ & _ & Hp & _).
    apply Hb in Hp. discriminate. }
  assert (Hwp := proj1 Hw eq_refl). assert (Hbp := proj1 Hb eq_refl).
  destruct (hi_is_admin info) eqn:Ea.
  - destruct (mem (sender_id event) (admin_users cfg)) eqn:Em.
    + split; [| reflexivity]. intros _. split; [reflexivity |].
      exists info. apply mem_true in Em.
      split; [reflexivity |]. split; [exact Hwp |]. split; [exact Hbp |]. auto.
    + destruct (allow_admin_commands cfg) eqn:Ef; simpl.
      * split; [| reflexivity]. intros _. split; [reflexivity |].
        exists info.
        split; [reflexivity |]. split; [exact Hwp |]. split; [exact Hbp |]. auto.
      * split; [done |]. intros (_ & i & [= <-] & _ & _ & Hadm).
        apply mem_false in Em. destruct (Hadm Ea); [contradiction | discriminate].
  - split; [| reflexivity]. intros _. split; [reflexivity |].
    exists info.
    split; [reflexivity |]. split; [exact Hwp |]. split; [exact Hbp |].
    rewrite Ea. intros ?. discriminate.
Qed.

Lemma can_execute_allowed_iff_witness :
  fst (_can_execute Sample.cfg Sample.idx (u "/mute") Sample.user_event) = true
  ∧ whitelist_passes Sample.cfg (strip_slash (u "/mute"))
      (canonical Sample.idx (u "/mute")).
Proof.
  assert (H : fst (_can_execute Sample.cfg Sample.idx (u "/mute")
                     Sample.user_event) = true) by (vm_compute; reflexivity).
  split; [exact H |].
  apply (can_execute_allowed_iff Sample.cfg Sample.idx (u "/mute")
           Sample.user_event) in H as (_ & info & _ & Hw & _).
  exact Hw.
Defined.

(** ** What [execute_command] does to the index *)

Section Preserves.

Context {X : Type} (f : world → X).

Lemma preserves_ret {A} (a : A) : preserves f (mret a).
Proof. intros w. reflexivity. Qed.

Lemma preserves_raise {A} (e : exn) : preserves f (@Run.raise A e).
Proof. intros w. reflexivity. Qed.

Lemma preserves_bind {A B} (m : M A) (k : A → M B) :
  preserves f m → (∀ a, preserves f (k a)) → preserves f (m ≫= k).
Proof.
  intros Hm Hk w. unfold mbind, M_bind. specialize (Hm w).
  destruct (m w) as [[a | e] w1]; simpl in *; [by rewrite Hk | exact Hm].
Qed.

Lemma preserves_try {A} (m : M A) (h : exn → M A) :
  preserves f m → (∀ e, preserves f (h e)) → preserves f (Run.try_except m h).
Proof.
  intros Hm Hh w. unfold Run.try_except. specialize (Hm w).
  destruct (m w) as [[a | e] w1]; simpl in *; [exact Hm | by rewrite Hh].
Qed.

End Preserves.

Lemma set_attr_keeps_index (ev : pyevent) (x : string) (v : value) :
  preserves w_index (Run.set_attr ev x v).
Proof.
  intros w. unfold Run.set_attr, mbind, M_bind, Run.get_heap. simpl.
  destruct (Ev.setattr (w_heap w) ev x v); reflexivity.
Qed.

Lemma send_keeps_index (hst : host) (r : result) :
  preserves w_index (Exec.send hst r).
Proof. intros w. unfold Exec.send. by destruct (send_raises _ _ _). Qed.

Lemma send_results_keeps_index (cfg : config) (hst : host)
    (event : AstrMessageEvent) (rs : list result) (texts : list pystr) :
  preserves w_index (Exec.send_results cfg hst event rs texts).
Proof.
  assert (Heach : preserves w_index (Exec.send_each hst rs))
    by (intros w; by rewrite send_each_run).
  unfold Exec.send_results. destruct (Exec.use_forward _ _ _); [| exact Heach].
  apply preserves_try; [| intros _; exact Heach].
  destruct (flat_map chain_of rs);
    [apply preserves_ret | apply send_keeps_index].
Qed.

Lemma run_handler_keeps_index (fn : handler_fn) (ev : pyevent) :
  preserves w_index (Exec.run_handler fn ev).
Proof.
  intros w. destruct fn as [body | body]; unfold Exec.run_handler;
    unfold mbind, M_bind, Run.log_call, Run.get_heap, Run.put_heap; simpl.
  - destruct (body ev (w_heap w)) as [[ys raised] h']. simpl.
    destruct raised as [[m | m | m] |]; reflexivity.
  - destruct (body ev (w_heap w)) as [[e | [r |]] h']; reflexivity.
Qed.

Lemma restore_keeps_index (event : AstrMessageEvent) (msg mo : value) :
  preserves w_index (Exec.restore event msg mo).
Proof.
  unfold Exec.restore. apply preserves_bind; [apply set_attr_keeps_index |].
  intros _. destruct mo; apply preserves_ret || apply set_attr_keeps_index.
Qed.

Lemma invoke_keeps_index (cfg : config) (hst : host)
    (event : AstrMessageEvent) (info : handler_info)
    (actual_command args : pystr) (at_qq_list : list pystr)
    (reply_image_url : pystr) (as_bot : bool) :
  preserves w_index (Exec.invoke cfg hst event info actual_command args
                       at_qq_list reply_image_url as_bot).
Proof.
  unfold Exec.invoke. apply preserves_bind; [by intros w |]. intros h0.
  destruct (Obj.getattr h0 (self_ref event) "message_str");
    [| apply preserves_raise].
  cbv zeta. apply preserves_try.
  - apply preserves_bind; [apply set_attr_keeps_index |]. intros _.
    apply preserves_bind.
    { destruct (_ || _); [| apply preserves_ret].
      destruct (Builder._build_message_components _ _ _ _ _);
        [apply preserves_ret |].
      apply preserves_bind; [by intros w |]. intros h.
      destruct (Ev.message_obj_with_message _ _); [| apply preserves_ret].
      destruct (Obj.value_setattr _ _ _ _); [by intros w | apply preserves_ret]. }
    intros _. apply preserves_bind; [apply run_handler_keeps_index |].
    intros rs. apply preserves_bind; [apply send_results_keeps_index |].
    intros _. apply preserves_bind; [apply restore_keeps_index |].
    intros _. apply preserves_ret.
  - intros e. apply preserves_bind; [| intros _; apply preserves_ret].
    apply preserves_try; [apply set_attr_keeps_index | intros _; apply preserves_ret].
Qed.

Lemma bind_snd_preserved {X A B} (f : world → X) (m : M A) (k : A → M B)
    (w : world) :
  (∀ a, preserves f (k a)) → f (snd ((m ≫= k) w)) = f (snd (m w)).
Proof.
  intros Hk. unfold mbind, M_bind.
  destruct (m w) as [[a | e] w1]; simpl; [apply Hk | reflexivity].
Qed.

Lemma get_index_bind {B} (k : index → M B) (w : world) :
  (Run.get_index ≫= k) w = k (w_index w) w.
Proof. reflexivity. Qed.

Lemma log_call_keeps_index (c : call) : preserves w_index (Run.log_call c).
Proof. by intros w. Qed.

(** The steps of [execute_command] that follow the lazy rebuild. *)
Lemma after_rebuild_keeps_index (cfg : config) (hst : host)
    (event : AstrMessageEvent) (command args : pystr)
    (at_qq_list : list pystr) (reply_image_url : pystr) (as_bot : bool) :
  preserves w_index
    (self ← Run.get_index;
     _ ← Run.log_call (Call_can_execute command);
     let '(can_exec, reason) := _can_execute cfg self command event in
     if negb can_exec then mret (failure (reason_str reason))
     else
       let command := strip_slash command in
       let actual_command :=
         default command (_alias_to_command self !! command) in
       match _handler_cache self !! actual_command with
       | None => mret (failure (u "未找到指令: " ++ command))
       | Some handler_info =>
         _ ← Run.log_call
               (Call_get_plugin_instance (hi_module_path handler_info));
         match _get_plugin_instance hst (hi_module_path handler_info) with
         | None =>
           mret (failure (u "无法获取指令 " ++ command ++ u " 所属插件的实例"))
         | Some _ =>
           Exec.invoke cfg hst event handler_info actual_command args
             at_qq_list reply_image_url as_bot
         end
       end).
Proof.
  apply preserves_bind; [by intros w |]. intros self.
  apply preserves_bind; [apply log_call_keeps_index |]. intros _.
  destruct (_can_execute cfg self command event) as [[|] reason];
    [| apply preserves_ret].
  simpl negb. cbv iota zeta.
  destruct (_handler_cache self !! _) as [info |]; [| apply preserves_ret].
  apply preserves_bind; [apply log_call_keeps_index |]. intros _.
  destruct (_get_plugin_instance _ _); [| apply preserves_ret].
  apply invoke_keeps_index.
Qed.

(** [execute_command] writes the index only through the lazy rebuild: a
    call with a non-blank command leaves a non-empty index as it is and
    replaces an empty one by the result of a rebuild, whatever the handler
    does; a call with a blank command leaves the index alone. *)
Theorem execute_command_index (cfg : config) (hst : host)
    (event : AstrMessageEvent) (kw : kwargs) (w : world) :
  w_index (snd (Exec.execute_command cfg hst event kw w))
  = if truthy (strip (default [] (kw_command kw)))
    then lazy_index hst (w_index w)
    else w_index w.
Proof.
  unfold Exec.execute_command. cbv zeta.
  destruct (truthy (strip (default [] (kw_command kw)))); [| reflexivity].
  cbn [negb]. rewrite get_index_bind.
  rewrite bind_snd_preserved
    by (intros _; apply after_rebuild_keeps_index).
  unfold lazy_index.
  destruct (size (_handler_cache (w_index w)) =? 0)%nat; reflexivity.
Qed.

(** ** Denials and failures of [execute_command] *)

(** When the policy gate denies a non-blank command (on the index as the
    lazy rebuild leaves it), [execute_command] returns the failure payload
    that carries the reason of the gate, whatever [as_bot] and the other
    arguments are; the event is not touched and the only calls made are
    the lazy rebuild and the policy check: no plugin instance is looked
    up, no handler runs and nothing is sent. *)
Theorem execute_command_denied (cfg : config) (hst : host)
    (event : AstrMessageEvent) (kw : kwargs) (w : world) (why : reason) :
  truthy (strip (default [] (kw_command kw))) = true →
  _can_execute cfg (lazy_index hst (w_index w))
    (strip (default [] (kw_command kw))) event = (false, why) →
  Exec.execute_command cfg hst event kw w
  = (Returns (failure (reason_str why)),
     {| w_index := lazy_index hst (w_index w);
        w_heap := w_heap w;
        w_trace := w_trace w ++ lazy_calls (w_index w)
                     ++ [Call_can_execute (strip (default [] (kw_command kw)))] |}).
Proof.
  intros Hcmd Hdeny. unfold Exec.execute_command. cbv zeta.
  rewrite Hcmd. cbn [negb]. rewrite get_index_bind.
  unfold lazy_index, lazy_calls in *.
  destruct (size (_handler_cache (w_index w)) =? 0)%nat;
    unfold mbind, M_bind, mret, M_ret, Run.log_call, Run.put_index,
      Run.get_index; cbn [w_index w_heap w_trace];
    rewrite Hdeny; cbn [negb]; [by rewrite <- app_assoc | reflexivity].
Qed.

Lemma execute_command_denied_witness :
  Exec.execute_command Sample.strict_cfg Sample.hst Sample.user_event
    Sample.mute_call Sample.world0
  = (Returns (failure (reason_str (NotWhitelisted (u "禁言")))),
     {| w_index := lazy_index Sample.hst (w_index Sample.world0);
        w_heap := Sample.heap0;
        w_trace := [Call_build_handler_cache; Call_can_execute (u "禁言")] |}).
Proof.
  apply (execute_command_denied Sample.strict_cfg Sample.hst Sample.user_event
           Sample.mute_call Sample.world0 (NotWhitelisted (u "禁言")));
    vm_compute; reflexivity.
Defined.


Lemma bind_run {A B} (m : M A) (k : A → M B) (w w1 : world) (a : A) :
  m w = (Returns a, w1) → (m ≫= k) w = k a w1.
Proof. intros H. unfold mbind, M_bind. by rewrite H. Qed.


Lemma lazy_rebuild_run (hst : host) (w : world) :
  (if (size (_handler_cache (w_index w)) =? 0)%nat
   then _ ← Run.log_call Call_build_handler_cache;
        Run.put_index (_build_handler_cache hst (w_index w))
   else mret tt) w
  = (Returns tt, {| w_index := lazy_index hst (w_index w);
                    w_heap := w_heap w;
                    w_trace := w_trace w ++ lazy_calls (w_index w) |}).
Proof.
  unfold lazy_index, lazy_calls.
  destruct (size (_handler_cache (w_index w)) =? 0)%nat; [reflexivity |].
  rewrite app_nil_r. by destruct w.
Qed.



Lemma set_attr_event_run (event : AstrMessageEvent) (bot : pystr)
    (as_bot : bool) (v : value) (w : world) :
  Run.set_attr (if as_bot then Wrap (Wrapper.init event bot) else Orig event)
    "message_str" v w
  = (Returns tt,
     {| w_index := w_index w;
        w_heap := Obj.setattr (w_heap w) (self_ref event) "message_str" v;
        w_trace := w_trace w |}).
Proof. destruct as_bot; reflexivity. Qed.

Lemma bind_raise_run {A B} (m : M A) (k : A → M B) (w w1 : world) (e : exn) :
  m w = (Raises e, w1) → (m ≫= k) w = (Raises e, w1).
Proof. intros H. unfold mbind, M_bind. by rewrite H. Qed.

Lemma install_components_heap (due : bool) (built : pystr + list component)
    (ev : pyevent) (w : world) :
  (if due then
     match built with
     | inl _ => mret tt
     | inr components =>
       h ← Run.get_heap;
       match Ev.message_obj_with_message h ev with
       | Some mo =>
         match Obj.value_setattr h mo "message" (VComponents components) with
         | Some h' => Run.put_heap h'
         | None => mret tt
         end
       | None => mret tt
       end
     end
   else mret tt) w
  = (Returns tt, {| w_index := w_index w;
                    w_heap := installed due built ev (w_heap w);
                    w_trace := w_trace w |}).
Proof.
  unfold installed. destruct due; [| by destruct w].
  destruct built as [msg | cs]; [by destruct w |].
  unfold mbind, M_bind, Run.get_heap. cbv beta iota.
  destruct (Ev.message_obj_with_message (w_heap w) ev) as [mo |];
    [| by destruct w].
  destruct (Obj.value_setattr _ _ _ _) as [h' |]; [reflexivity | by destruct w].
Qed.

Lemma run_handler_raising (ev : pyevent) (w : world)
    (body : pyevent → heap → list (option result) * option exn * heap)
    (e : exn) :
  snd (fst (body ev (w_heap w))) = Some e →
  (∀ m, e ≠ TypeError m) →
  ∃ h', Exec.run_handler (AsyncGenFn body) ev w
        = (Raises e,
           {| w_index := w_index w; w_heap := h';
              w_trace := w_trace w ++ [Call_handler ev] |}).
Proof.
  intros H Hne. unfold Exec.run_handler.
  unfold mbind, M_bind, Run.log_call, Run.get_heap, Run.put_heap, Run.raise.
  cbn [w_index w_heap w_trace].
  destruct (body ev (w_heap w)) as [[ys raised] h']. simpl in H. subst raised.
  destruct e as [m | m | m]; [by eexists | by destruct (Hne m) | by eexists].
Qed.

Lemma sends_of_handler_call (t : list call) (ev : pyevent) :
  Run.sends_of (t ++ [Call_handler ev]) = Run.sends_of t.
Proof. rewrite sends_of_app. simpl. apply app_nil_r. Qed.

(** When the handler of the resolved command is an async generator that,
    started on the prepared event, raises an exception other than
    [TypeError], the invocation returns the failure payload that names the
    command and carries the text of the exception; the handler has been
    called once and no send call is made. *)
Theorem invoke_handler_failure (cfg : config) (hst : host)
    (event : AstrMessageEvent) (info : handler_info)
    (actual_command args : pystr) (at_qq_list : list pystr)
    (reply_image_url : pystr) (as_bot : bool) (w : world)
    (body : pyevent → heap → list (option result) * option exn * heap)
    (e : exn) :
  handler (hi_handler info) = AsyncGenFn body →
  is_Some (Obj.getattr (w_heap w) (self_ref event) "message_str") →
  snd (fst (body (bound_event cfg event as_bot)
              (prepared_heap cfg hst event actual_command args at_qq_list
                 reply_image_url as_bot (w_heap w)))) = Some e →
  (∀ m, e ≠ TypeError m) →
  ∃ w', Exec.invoke cfg hst event info actual_command args at_qq_list
          reply_image_url as_bot w
        = (Returns (JObj [("success", JBool false);
                          ("command", JStr actual_command);
                          ("error", JStr (u "执行失败: " ++ exn_str e))]), w')
        ∧ w_trace w' = w_trace w ++ [Call_handler (bound_event cfg event as_bot)]
        ∧ send_calls w' = send_calls w.
Proof.
  intros Hfn [orig Horig] Hbody Hne. unfold Exec.invoke.
  rewrite (bind_run _ _ w w (w_heap w)) by reflexivity.
  rewrite Horig. cbv zeta. rewrite Hfn.
  unfold Run.try_except at 1.
  erewrite bind_run by apply set_attr_event_run.
  erewrite bind_run by apply install_components_heap.
  cbn [w_index w_heap w_trace].
  unfold prepared_heap, bound_event in Hbody.
  match goal with
  | |- context [mbind _ (Exec.run_handler _ ?ev) ?w1] =>
    destruct (run_handler_raising ev w1 body e Hbody Hne) as (h' & Hh)
  end.
  erewrite bind_raise_run by exact Hh.
  unfold mbind, M_bind, Run.try_except. rewrite set_attr_orig.
  eexists. split; [reflexivity |]. cbn [w_trace]. unfold bound_event.
  split; [reflexivity |].
  unfold send_calls. cbn [w_trace]. apply sends_of_handler_call.
Qed.

Lemma invoke_handler_failure_witness :
  ∃ w', Exec.invoke Sample.cfg Sample.hst Sample.user_event
          {| hi_command := u "签到"; hi_description := u "daily check-in";
             hi_plugin := u "group_admin"; hi_aliases := [];
             hi_is_admin := false; hi_handler := Sample.checkin_md;
             hi_module_path := u "data.plugins.group_admin.main" |}
          (u "签到") [] [u "123"] [] true Sample.world0
        = (Returns (JObj [("success", JBool false);
                          ("command", JStr (u "签到"));
                          ("error", JStr (u "执行失败: "
                                          ++ exn_str (OtherException (u "boom"))))]),
           w')
        ∧ w_trace w'
          = w_trace Sample.world0
            ++ [Call_handler (bound_event Sample.cfg Sample.user_event true)]
        ∧ send_calls w' = send_calls Sample.world0.
Proof.
  eapply (invoke_handler_failure Sample.cfg Sample.hst Sample.user_event _
            (u "签到") [] [u "123"] [] true Sample.world0
            (fun _ h => ([], Some (OtherException (u "boom")), h))).
  - reflexivity.
  - exists (VStr (u "hello")). vm_compute. reflexivity.
  - reflexivity.
  - intros m. discriminate.
Defined.

(** ** More on the delivery block *)

Lemma send_results_run (cfg : config) (hst : host)
    (event : AstrMessageEvent) (rs : list result) (texts : list pystr)
    (w : world) :
  ∃ sent, Exec.send_results cfg hst event rs texts w
          = (Returns tt,
             {| w_index := w_index w; w_heap := w_heap w;
                w_trace := w_trace w ++ map Call_send sent |}).
Proof.
  unfold Exec.send_results.
  destruct (Exec.use_forward cfg event texts);
    [| exists rs; apply send_each_run].
  unfold Run.try_except.
  destruct (flat_map chain_of rs) as [| c cs] eqn:Hall.
  - exists []. simpl. rewrite app_nil_r. by destruct w.
  - unfold Exec.send. destruct (send_raises hst _ _).
    + exists (Exec.forward_result event (c :: cs) :: rs).
      rewrite send_each_run. cbn [w_index w_heap w_trace map].
      by rewrite <- app_assoc.
    + by exists [Exec.forward_result event (c :: cs)].
Qed.


Lemma positive_total_has_text (texts : list pystr) :
  0 < Exec.total_text_length texts → ∃ t, t ∈ texts ∧ t ≠ [].
Proof.
  unfold Exec.total_text_length.
  induction texts as [| t texts IH]; simpl; [lia |].
  destruct t as [| c t].
  - simpl. intros H. destruct (IH H) as (t' & Hin & Hne).
    exists t'. split; [by apply elem_of_cons; right | exact Hne].
  - intros _. exists (c :: t). split; [apply elem_of_cons; by left | done].
Qed.

(** With a threshold that is not negative, the combined path is only ever
    selected when some captured result carries a non-empty text; in
    particular never for an empty list of results. *)
Theorem use_forward_needs_text (cfg : config) (event : AstrMessageEvent)
    (rs : list result) :
  (0 ≤ forward_threshold cfg)%Z →
  Exec.use_forward cfg event (extracted_texts rs) = true →
  rs ≠ [] ∧ ∃ t, t ∈ extracted_texts rs ∧ t ≠ [].
Proof.
  intros Hth Hfw. unfold Exec.use_forward in Hfw.
  apply andb_true_iff in Hfw as [Hfw _]. apply andb_true_iff in Hfw as [_ Hlt].
  apply Z.ltb_lt in Hlt.
  assert (Hpos : 0 < Exec.total_text_length (extracted_texts rs)) by lia.
  split; [| by apply positive_total_has_text].
  intros ->. vm_compute in Hpos. lia.
Qed.

Lemma use_forward_needs_text_witness :
  [Sample.hello_chain] ≠ []
  ∧ ∃ t, t ∈ extracted_texts [Sample.hello_chain] ∧ t ≠ [].
Proof.
  apply (use_forward_needs_text Sample.short_cfg Sample.user_event
           [Sample.hello_chain]).
  - vm_compute. discriminate.
  - vm_compute. reflexivity.
Defined.

(** ** More on message synthesis *)

Lemma placeholder_loop_grows (at_qq_list parts : list pystr)
    (cs out : list component) (buf buf' : list pystr) :
  Builder.placeholder_loop at_qq_list parts cs buf = Some (out, buf') →
  ∃ extra, out = cs ++ extra
           ∧ Forall (text_or_listed_mention at_qq_list) extra.
Proof.
  revert cs buf. induction parts as [| part parts IH]; intros cs buf.
  - intros [= <- <-]. exists []. by rewrite app_nil_r.
  - cbn [Builder.placeholder_loop].
    destruct (_ && _ && _); [| apply IH].
    destruct (int_of (drop 1 part)) as [idx |]; [| discriminate].
    destruct (at_qq_list !! idx) as [qq |] eqn:Hqq; [| apply IH].
    assert (Hat : text_or_listed_mention at_qq_list (At qq)).
    { right. exists qq. split; [done |]. eapply list_elem_of_lookup_2, Hqq. }
    destruct buf as [| b buf]; intros Hloop.
    + destruct (IH _ _ Hloop) as (extra & -> & Hall).
      exists (At qq :: extra). split; [by rewrite <- app_assoc | by constructor].
    + destruct (IH _ _ Hloop) as (extra & -> & Hall).
      exists (Plain (u " " ++ join (u " ") (b :: buf)) :: At qq :: extra).
      split; [by rewrite <- !app_assoc |].
      constructor; [left; eauto | by constructor].
Qed.

Lemma placeholder_loop_raises (at_qq_list parts : list pystr)
    (cs : list component) (buf : list pystr) :
  Builder.placeholder_loop at_qq_list parts cs buf = None →
  ∃ part, part ∈ parts ∧ unreadable_placeholder part.
Proof.
  revert cs buf. induction parts as [| part parts IH]; intros cs buf;
    [discriminate |].
  cbn [Builder.placeholder_loop].
  assert (Hrest : ∀ cs' buf',
            Builder.placeholder_loop at_qq_list parts cs' buf' = None →
            ∃ p, p ∈ part :: parts ∧ unreadable_placeholder p).
  { intros cs' buf' H. destruct (IH _ _ H) as (p & Hp & Hu).
    exists p. split; [by apply elem_of_cons; right | exact Hu]. }
  destruct (_ && _ && _) eqn:Hshape; [| apply Hrest].
  destruct (int_of (drop 1 part)) as [idx |] eqn:Hint.
  - destruct (at_qq_list !! idx); apply Hrest.
  - intros _. exists part. split; [apply elem_of_cons; by left |].
    split; [exact Hshape | exact Hint].
Qed.

Lemma map_At_listed (at_qq_list l : list pystr) :
  l ⊆ at_qq_list → Forall (text_or_listed_mention at_qq_list) (map At l).
Proof.
  intros Hsub. induction l as [| q l IH]; simpl; constructor.
  - right. exists q. split; [done |]. apply Hsub, elem_of_cons. by left.
  - apply IH. intros x Hx. apply Hsub, elem_of_cons. by right.
Qed.

(** Without a quoted image the method raises only when some token of the
    arguments passes the placeholder test and is rejected by [int] (a
    digit that is not decimal, or more digits than the conversion limit).
    Otherwise the synthesized message opens with one text segment that
    begins with a slash and the command name, and every segment after it
    is either text or a mention of one of the supplied targets: nobody
    outside [at_qq_list] is ever mentioned. *)
Theorem build_message_components_shape (fromURL : pystr → ctor_outcome)
    (command args : pystr) (at_qq_list : list pystr) :
  match Builder._build_message_components fromURL command args at_qq_list None
  with
  | inr cs =>
    ∃ t rest, cs = Plain ([47%N] ++ command ++ t) :: rest
              ∧ Forall (text_or_listed_mention at_qq_list) rest
  | inl _ =>
    ∃ part, part ∈ split args ∧ unreadable_placeholder part
  end.
Proof.
  unfold Builder._build_message_components, Builder.reply_part,
    Builder.command_part.
  change (u "/") with [47%N]. cbn [app].
  destruct at_qq_list as [| q qs] eqn:Hl.
  - destruct (truthy args).
    + exists (u " " ++ args), []. split; [reflexivity | constructor].
    + exists [], []. rewrite app_nil_r. split; [reflexivity | constructor].
  - rewrite <- Hl. destruct (truthy args).
    + destruct (Builder.has_placeholders args at_qq_list).
      * destruct (Builder.placeholder_loop at_qq_list (split args)
                    [Plain (47%N :: command)] []) as [[out buf] |] eqn:Hloop.
        -- destruct (placeholder_loop_grows _ _ _ _ _ _ Hloop)
             as (extra & -> & Hall).
           destruct buf as [| b buf].
           ++ exists [], extra. rewrite app_nil_r. split; [reflexivity | exact Hall].
           ++ exists [], (extra ++ [Plain (u " " ++ join (u " ") (b :: buf))]).
              rewrite app_nil_r. split; [reflexivity |].
              apply Forall_app. split; [exact Hall |].
              constructor; [left; eauto | constructor].
        -- eapply placeholder_loop_raises, Hloop.
      * exists [], (map At at_qq_list ++ [Plain (u " " ++ args)]).
        rewrite app_nil_r. split; [reflexivity |].
        apply Forall_app. split; [by apply map_At_listed |].
        constructor; [left; eauto | constructor].
    + exists [], (map At at_qq_list). rewrite app_nil_r.
      split; [reflexivity | by apply map_At_listed].
Qed.

Lemma mentions_app (cs1 cs2 : list component) :
  mentions (cs1 ++ cs2) = mentions cs1 ++ mentions cs2.
Proof. unfold mentions. apply omap_app. Qed.

Lemma mentions_cons_plain (t : pystr) (cs : list component) :
  mentions (Plain t :: cs) = mentions cs.
Proof. reflexivity. Qed.

Lemma mentions_map_At (l : list pystr) : mentions (map At l) = l.
Proof.
  induction l as [| q l IH]; [reflexivity |].
  change (mentions (map At (q :: l))) with (q :: mentions (map At l)).
  by rewrite IH.
Qed.

(** When the arguments are empty or hold no placeholder of the list, every
    target of [at_qq_list] is mentioned exactly once, in the order of the
    list. *)
Theorem build_message_components_trailing_mentions
    (fromURL : pystr → ctor_outcome) (command args : pystr)
    (at_qq_list : list pystr) (cs : list component) :
  truthy args = false ∨ Builder.has_placeholders args at_qq_list = false →
  Builder._build_message_components fromURL command args at_qq_list None
    = inr cs →
  mentions cs = at_qq_list.
Proof.
  intros Hmode. unfold Builder._build_message_components, Builder.reply_part,
    Builder.command_part. cbn [app].
  destruct at_qq_list as [| q qs] eqn:Hl.
  - intros [= <-]. reflexivity.
  - rewrite <- Hl. rewrite <- Hl in Hmode.
    destruct (truthy args) eqn:Ht.
    + destruct Hmode as [? | Hp]; [discriminate |]. rewrite Hp.
      intros [= <-]. rewrite mentions_cons_plain, mentions_app, mentions_map_At.
      apply app_nil_r.
    + intros [= <-]. rewrite mentions_cons_plain. apply mentions_map_At.
Qed.

Lemma build_message_components_trailing_mentions_witness :
  mentions [Plain (u "/禁言"); At (u "123"); Plain (u " 60")] = [u "123"].
Proof.
  apply (build_message_components_trailing_mentions Sample.fromURL
           (u "禁言") (u "60") [u "123"]).
  - right. vm_compute. reflexivity.
  - vm_compute. reflexivity.
Defined.

Lemma placeholder_loop_mentions (at_qq_list parts : list pystr)
    (cs out : list component) (buf buf' : list pystr) :
  Builder.placeholder_loop at_qq_list parts cs buf = Some (out, buf') →
  mentions out = mentions cs ++ omap (placeholder_target at_qq_list) parts.
Proof.
  revert cs buf. induction parts as [| part parts IH]; intros cs buf.
  - intros [= <- <-]. simpl. by rewrite app_nil_r.
  - change (omap (placeholder_target at_qq_list) (part :: parts))
      with (match placeholder_target at_qq_list part with
            | Some q => q :: omap (placeholder_target at_qq_list) parts
            | None => omap (placeholder_target at_qq_list) parts
            end).
    unfold placeholder_target at 1. cbn [Builder.placeholder_loop].
    destruct (_ && _ && _); [| apply IH].
    destruct (int_of (drop 1 part)) as [idx |]; [| discriminate].
    destruct (at_qq_list !! idx) as [qq |]; [| apply IH].
    intros Hloop. rewrite (IH _ _ Hloop). destruct buf as [| b buf].
    + rewrite mentions_app. by rewrite <- app_assoc.
    + rewrite !mentions_app. cbn [mentions omap list_omap app].
      rewrite app_nil_r. by rewrite <- app_assoc.
Qed.

Lemma decimal_value_ascii (d : nat) :
  d < 10 → decimal_value (N.of_nat (48 + d)) = Some d.
Proof.
  intros Hd. do 10 (destruct d as [| d]; [reflexivity |]). lia.
Qed.

Lemma digits_from_spec (fuel n : nat) (acc : pystr) :
  n < fuel →
  ∃ ds, digits_from fuel n acc = ds ++ acc
        ∧ ds ≠ []
        ∧ forallb is_digit_char ds = true
        ∧ fold_left int_step ds (Some 0) = Some n.
Proof.
  revert n acc. induction fuel as [| fuel IH]; intros n acc Hn; [lia |].
  cbn [digits_from].
  assert (Hd : n mod 10 < 10) by (apply Nat.mod_upper_bound; lia).
  pose proof (decimal_value_ascii _ Hd) as Hval.
  destruct (n <? 10)%nat eqn:Hlt.
  - apply Nat.ltb_lt in Hlt. rewrite Nat.mod_small in Hval by lia.
    rewrite Nat.mod_small by lia.
    exists [N.of_nat (48 + n)]. split; [reflexivity |]. split; [done |].
    split.
    + cbn [forallb]. unfold is_digit_char. by rewrite Hval.
    + cbn [fold_left]. unfold int_step. rewrite Hval. f_equal; lia.
  - apply Nat.ltb_ge in Hlt.
    assert (Hdiv : n / 10 < fuel).
    { pose proof (Nat.div_lt n 10). lia. }
    destruct (IH (n / 10) (N.of_nat (48 + n mod 10) :: acc) Hdiv)
      as (ds & -> & Hne & Hall & Hfold).
    exists (ds ++ [N.of_nat (48 + n mod 10)]).
    split; [by rewrite <- app_assoc |].
    split; [by destruct ds |]. split.
    + rewrite forallb_app, Hall. cbn [forallb]. unfold is_digit_char.
      by rewrite Hval.
    + rewrite fold_left_app, Hfold. cbn [fold_left]. unfold int_step.
      rewrite Hval. pose proof (Nat.div_mod_eq n 10). f_equal; lia.
Qed.

(** A token made of "@" and the decimal rendering of [i] stands for
    [at_qq_list[i]]. *)
Lemma placeholder_target_index (at_qq_list : list pystr) (i : nat) :
  (N.of_nat (length (str_of_nat i)) ≤ int_max_str_digits)%N →
  placeholder_target at_qq_list (u "@" ++ str_of_nat i) = at_qq_list !! i.
Proof.
  intros Hlen. unfold str_of_nat in *.
  destruct (digits_from_spec (S i) i [] (Nat.lt_succ_diag_r i))
    as (ds & Hds & Hne & Hall & Hfold).
  rewrite Hds in *. rewrite app_nil_r in *.
  assert (Hshape : startswith (u "@") (u "@" ++ ds)
                   && (1 <? length (u "@" ++ ds))%nat
                   && isdigit (drop 1 (u "@" ++ ds)) = true).
  { change (u "@" ++ ds) with (64%N :: ds). change (u "@") with [64%N].
    change (drop 1 (64%N :: ds)) with ds.
    destruct ds as [| c ds]; [done |]. unfold isdigit. rewrite Hall.
    reflexivity. }
  unfold placeholder_target. rewrite Hshape.
  change (drop 1 (u "@" ++ ds)) with ds. unfold int_of.
  destruct (int_max_str_digits <? N.of_nat (length ds))%N eqn:Hbig.
  - apply N.ltb_lt in Hbig. lia.
  - by rewrite Hfold.
Qed.

(** In placeholder mode the mentions are those that the tokens of the
    arguments name, in the order of the tokens: a token that passes the
    placeholder test and that [int] reads as an index in range mentions
    the target at that index, and a target that no token names is not
    mentioned at all.  In particular a token "@i", with [i] written in
    decimal, stands for [at_qq_list[i]]. *)
Theorem build_message_components_placeholder_mentions
    (fromURL : pystr → ctor_outcome) (command args : pystr)
    (at_qq_list : list pystr) (cs : list component) :
  truthy args = true →
  Builder.has_placeholders args at_qq_list = true →
  Builder._build_message_components fromURL command args at_qq_list None
    = inr cs →
  mentions cs = omap (placeholder_target at_qq_list) (split args)
  ∧ ∀ i, (N.of_nat (length (str_of_nat i)) ≤ int_max_str_digits)%N →
         placeholder_target at_qq_list (u "@" ++ str_of_nat i)
         = at_qq_list !! i.
Proof.
  intros Ht Hp Hbuild. split; [| apply placeholder_target_index].
  revert Hbuild.
  unfold Builder._build_message_components, Builder.reply_part,
    Builder.command_part. cbn [app].
  destruct at_qq_list as [| q qs] eqn:Hl; [discriminate |].
  rewrite <- Hl. rewrite <- Hl in Hp. rewrite Ht, Hp.
  destruct (Builder.placeholder_loop _ _ _ _) as [[out buf] |] eqn:Hloop;
    [| discriminate].
  pose proof (placeholder_loop_mentions _ _ _ _ _ _ Hloop) as Hm.
  simpl in Hm.
  destruct buf as [| b buf]; intros [= <-]; [exact Hm |].
  rewrite mentions_app, Hm. apply app_nil_r.
Qed.

Lemma build_message_components_placeholder_mentions_witness :
  mentions [Plain (u "/转账"); At (u "222"); Plain (u " 5 @7"); At (u "111")]
  = [u "222"; u "111"].
Proof.
  apply (build_message_components_placeholder_mentions Sample.fromURL
           (u "转账") (u "@1 5 @7 @0") [u "111"; u "222"]);
    vm_compute; reflexivity.
Defined.

(** ** More on the handler index *)

(** Last write wins: the record found under a command after a rebuild is
    the one built for the last handler of the registry that is indexed
    under that command, whatever earlier handlers declared the same
    name. *)
Theorem rebuild_last_write_wins (hst : host) (self : index)
    (before after : list registry_entry) (md : StarHandlerMetadata)
    (info : handler_info) :
  star_handlers_registry hst = before ++ Metadata md :: after →
  record_of (module_index (active_stars hst)) md = Some info →
  (∀ md' info', Metadata md' ∈ after →
     record_of (module_index (active_stars hst)) md' = Some info' →
     hi_command info' ≠ hi_command info) →
  _handler_cache (_build_handler_cache hst self) !! hi_command info = Some info.
Proof.
  intros Hreg Hrec Hlast. rewrite rebuild_unfold, Hreg, fold_left_app.
  simpl. rewrite scan_registry_untouched by exact Hlast.
  simpl. rewrite Hrec. simpl. apply lookup_insert_eq.
Qed.

Lemma rebuild_last_write_wins_witness :
  _handler_cache (_build_handler_cache Sample.hst blank) !! u "禁言"
  = Some Sample.mute_info.
Proof.
  apply (rebuild_last_write_wins Sample.hst blank [] [Metadata Sample.checkin_md]
           Sample.mute_md Sample.mute_info).
  - reflexivity.
  - vm_compute. reflexivity.
  - intros md' info' Hin Hrec.
    apply list_elem_of_singleton in Hin. injection Hin as ->.
    vm_compute in Hrec. injection Hrec as <-. vm_compute. discriminate.
Defined.

Lemma record_of_module_path (M : gmap pystr (star * pystr))
    (md : StarHandlerMetadata) (info : handler_info) :
  record_of M md = Some info →
  hi_module_path info = handler_module_path md.
Proof.
  unfold record_of. destruct (M !! handler_module_path md) as [[s pn] |]; [| done].
  destruct (command_name _) as [cn |]; [| done].
  destruct (truthy cn); [| done]. by intros [= <-].
Qed.

Lemma find_first (p : star → bool) (l : list star) (x : star) :
  x ∈ l → p x = true →
  ∃ before s after,
    l = before ++ s :: after
    ∧ (∀ s', s' ∈ before → p s' = false)
    ∧ p s = true
    ∧ find p l = Some s.
Proof.
  induction l as [| y l IH]; intros Hin Hp.
  { by apply not_elem_of_nil in Hin. }
  simpl. destruct (p y) eqn:Hy.
  - exists [], y, l. split; [reflexivity |].
    split; [| by split]. intros s' Hs'. by apply not_elem_of_nil in Hs'.
  - apply elem_of_cons in Hin as [-> | Hin]; [congruence |].
    destruct (IH Hin Hp) as (before & s & after & -> & Hb & Hs & Hf).
    exists (y :: before), s, after. split; [reflexivity |].
    split; [| by split].
    intros s' Hs'. apply elem_of_cons in Hs' as [-> | Hs']; [exact Hy | by apply Hb].
Qed.

(** For every command of a rebuilt index, [_get_plugin_instance] on the
    module path of the record answers with the [star_cls] of the first
    listed extension that has this module path: the list of extensions
    splits into extensions with another (or no) module path, that
    extension, and a rest that is not looked at.  So the lookup can only
    fail when that first extension holds no instance. *)
Theorem indexed_command_instance_lookup (hst : host) (self : index)
    (k : pystr) (info : handler_info) :
  _handler_cache (_build_handler_cache hst self) !! k = Some info →
  ∃ all_stars before s after,
    get_all_stars hst = Some all_stars
    ∧ all_stars = before ++ s :: after
    ∧ (∀ s', s' ∈ before → module_path s' ≠ Some (hi_module_path info))
    ∧ module_path s = Some (hi_module_path info)
    ∧ _get_plugin_instance hst (hi_module_path info) = star_cls s.
Proof.
  rewrite rebuild_unfold. intros H.
  apply scan_registry_lookup in H as [H | (md & _ & Hrec & _)].
  { simpl in H. by rewrite lookup_empty in H. }
  pose proof (record_of_module_path _ _ _ Hrec) as Hpath.
  apply record_of_Some in Hrec as (s0 & cn & HM & _).
  apply (proj1 (module_index_owner hst md)) in HM
    as (s1 & Hact & _ & _ & Hmp & _).
  unfold active_stars in Hact. unfold _get_plugin_instance.
  destruct (get_all_stars hst) as [all_stars |];
    [| by apply not_elem_of_nil in Hact].
  apply list_elem_of_In, filter_In in Hact as [Hin _].
  apply list_elem_of_In in Hin. rewrite Hpath.
  destruct (find_first
              (fun s => bool_decide (module_path s = Some (handler_module_path md)))
              all_stars s1 Hin) as (before & s & after & Hl & Hb & Hp & Hf).
  { by apply bool_decide_eq_true. }
  exists all_stars, before, s, after. rewrite Hf.
  apply bool_decide_eq_true in Hp.
  split; [reflexivity |]. split; [exact Hl |]. split; [| by split].
  intros s' Hs'. apply Hb in Hs'. by apply bool_decide_eq_false in Hs'.
Qed.

Lemma indexed_command_instance_lookup_witness :
  ∃ all_stars before s after,
    get_all_stars Sample.hst = Some all_stars
    ∧ all_stars = before ++ s :: after
    ∧ (∀ s', s' ∈ before
             → module_path s' ≠ Some (hi_module_path Sample.mute_info))
    ∧ module_path s = Some (hi_module_path Sample.mute_info)
    ∧ _get_plugin_instance Sample.hst (hi_module_path Sample.mute_info)
      = star_cls s.
Proof.
  apply (indexed_command_instance_lookup Sample.hst blank (u "禁言")
           Sample.mute_info).
  vm_compute. reflexivity.
Defined.

(** ** More on the identity substitution wrapper *)

(** A write through the wrapper under a name other than its two fields
    lands on the wrapped event and leaves the wrapper itself as it was.  A
    later read through the wrapper sees the written value when the name is
    not a member of the wrapper's class; for a class member such as
    [get_sender_id] the value is stored on the event all the same, but
    the read through the wrapper still answers with the member.  The
    write changes no other attribute seen through the wrapper and no
    other object. *)
Theorem wrapper_write_then_read (h : heap) (e : AstrMessageEvent)
    (bot : pystr) (x : string) (v : value) :
  x ≠ "_original_event" → x ≠ "_bot_user_id" →
  ∃ h', Wrapper.write h (Wrapper.init e bot) x v
          = Some (Wrapper.init e bot, h')
        ∧ Obj.getattr h' (self_ref e) x = Some v
        ∧ (x ∉ Wrapper.class_namespace →
           Wrapper.read h' (Wrapper.init e bot) x = Some v)
        ∧ (x ∈ Wrapper.class_namespace →
           Wrapper.read h' (Wrapper.init e bot) x = Some (VMember x))
        ∧ (∀ y, y ≠ x → Wrapper.read h' (Wrapper.init e bot) y
                         = Wrapper.read h (Wrapper.init e bot) y)
        ∧ (∀ l y, l ≠ self_ref e → Obj.getattr h' l y = Obj.getattr h l y).
Proof.
  intros H1 H2. exists (Obj.setattr h (self_ref e) x v).
  split; [| split; [| split; [| split; [| split]]]].
  - unfold Wrapper.write, Wrapper.__setattr__.
    destruct (decide (x = "_original_event")) as [|_]; [contradiction |].
    destruct (decide (x = "_bot_user_id")) as [|_]; [contradiction |].
    reflexivity.
  - apply getattr_setattr_same.
  - intros H3. unfold Wrapper.read.
    destruct (decide (x = "_original_event")) as [|_]; [contradiction |].
    destruct (decide (x = "_bot_user_id")) as [|_]; [contradiction |].
    destruct (decide (x ∈ Wrapper.class_namespace)) as [|_]; [contradiction |].
    apply getattr_setattr_same.
  - intros H3. unfold Wrapper.read.
    destruct (decide (x = "_original_event")) as [|_]; [contradiction |].
    destruct (decide (x = "_bot_user_id")) as [|_]; [contradiction |].
    destruct (decide (x ∈ Wrapper.class_namespace)) as [_|]; [| contradiction].
    reflexivity.
  - intros y Hy. unfold Wrapper.read.
    destruct (decide (y = "_original_event")); [reflexivity |].
    destruct (decide (y = "_bot_user_id")); [reflexivity |].
    destruct (decide (y ∈ Wrapper.class_namespace)); [reflexivity |].
    apply getattr_setattr_other_name. congruence.
  - intros l y Hl. apply getattr_setattr_other_loc. congruence.
Qed.

Lemma wrapper_write_then_read_witness :
  ∃ h', Wrapper.write Sample.heap0 Sample.wrapped "message_str"
          (VStr (u "/mute")) = Some (Sample.wrapped, h')
        ∧ Obj.getattr h' (self_ref Sample.user_event) "message_str"
          = Some (VStr (u "/mute"))
        ∧ Wrapper.read h' Sample.wrapped "message_str" = Some (VStr (u "/mute")).
Proof.
  destruct (wrapper_write_then_read Sample.heap0 Sample.user_event
              (u "bot_self") "message_str" (VStr (u "/mute")))
    as (h' & Hw & Hg & Hr & _); [discriminate | discriminate |].
  exists h'. split; [exact Hw |]. split; [exact Hg |]. apply Hr. by_decide.
Defined.

(** Only an assignment to [_bot_user_id] changes the identity that the
    wrapper reports: after any other write, also one named
    [get_sender_id], the method of the wrapper still answers and still
    returns the same identity. *)
Theorem wrapper_identity_stable (h h' : heap) (w w' : BotIdentityEventWrapper)
    (x : string) (v : value) :
  x ≠ "_bot_user_id" →
  Wrapper.write h w x v = Some (w', h') →
  Wrapper.get_sender_id w' = Wrapper.get_sender_id w
  ∧ Wrapper.read h' w' "get_sender_id" = Some (VMember "get_sender_id").
Proof.
  intros Hx. unfold Wrapper.write, Wrapper.__setattr__.
  destruct (decide (x = "_original_event")).
  { intros [= <- <-]. split; reflexivity. }
  destruct (decide (x = "_bot_user_id")); [contradiction |].
  destruct (Obj.value_setattr h (_original_event w) x v); [| discriminate].
  intros [= <- <-]. split; reflexivity.
Qed.

Lemma wrapper_identity_stable_witness :
  Wrapper.get_sender_id Sample.wrapped = VStr (u "bot_self")
  ∧ Wrapper.read
      (Obj.setattr Sample.heap0 1%positive "get_sender_id" (VStr (u "20002")))
      Sample.wrapped "get_sender_id" = Some (VMember "get_sender_id").
Proof.
  split; [reflexivity |].
  eapply (wrapper_identity_stable Sample.heap0 _ Sample.wrapped Sample.wrapped
            "get_sender_id" (VStr (u "20002"))).
  - discriminate.
  - reflexivity.
Defined.

(** ** The success payload *)

(** The success payload always names the canonical command and the
    identity used, and always has a [result]: the texts joined by newlines
    when there are any, else the count of images when there are any, else
    the no-output notice; [images] is present exactly when an image was
    captured. *)
Theorem success_response_fields (actual_command args : pystr)
    (result_texts result_images : list pystr) (as_bot : bool) :
  ∃ fields,
    Exec.success_response actual_command args result_texts result_images as_bot
      = JObj fields
    ∧ dict_get fields "success" = Some (JBool true)
    ∧ dict_get fields "command" = Some (JStr actual_command)
    ∧ dict_get fields "result"
      = Some (JStr (if nonempty result_texts then join [10%N] result_texts
                    else if nonempty result_images
                    then u "指令返回了 " ++ str_of_nat (length result_images)
                         ++ u " 张图片"
                    else u "指令执行完成（无输出内容）"))
    ∧ dict_get fields "images"
      = (if nonempty result_images then Some (JArr (map JStr result_images))
         else None)
    ∧ dict_get fields "executed_as"
      = Some (JStr (if as_bot then u "bot" else u "user")).
Proof.
  unfold Exec.success_response.
  destruct result_texts as [| t ts], result_images as [| img imgs];
    cbn [nonempty negb andb]; eexists; (split; [reflexivity |]);
    repeat split; reflexivity.
Qed.

(** ** [list_executable_commands] *)

Section Grouping.

Import Listing.

Lemma group_add_size (d : list (pystr * list listed)) (cmd : executable) :
  group_sizes (group_add d cmd) = S (group_sizes d).
Proof.
  unfold group_sizes. induction d as [| [p cmds] d IH]; simpl; [reflexivity |].
  destruct (decide (p = ex_plugin cmd)); simpl.
  - rewrite length_app. simpl. lia.
  - rewrite IH. lia.
Qed.

Lemma group_add_keys (d : list (pystr * list listed)) (cmd : executable) :
  map fst (group_add d cmd)
  = if bool_decide (ex_plugin cmd ∈ map fst d) then map fst d
    else map fst d ++ [ex_plugin cmd].
Proof.
  induction d as [| [p cmds] d IH]; simpl; [reflexivity |].
  destruct (decide (p = ex_plugin cmd)) as [-> | Hne]; simpl.
  - rewrite bool_decide_eq_true_2; [reflexivity | apply elem_of_cons; by left].
  - rewrite IH. destruct (bool_decide (ex_plugin cmd ∈ map fst d)) eqn:Hd.
    + apply bool_decide_eq_true in Hd.
      rewrite bool_decide_eq_true_2; [reflexivity | apply elem_of_cons; by right].
    + apply bool_decide_eq_false in Hd.
      rewrite bool_decide_eq_false_2; [reflexivity |].
      intros [? | ?]%elem_of_cons; congruence.
Qed.

Lemma group_add_NoDup (d : list (pystr * list listed)) (cmd : executable) :
  NoDup (map fst d) → NoDup (map fst (group_add d cmd)).
Proof.
  intros Hnd. rewrite group_add_keys.
  destruct (bool_decide _) eqn:Hd; [exact Hnd |].
  apply bool_decide_eq_false in Hd.
  apply NoDup_app. split; [exact Hnd |]. split.
  - intros x Hx Hin. apply list_elem_of_singleton in Hin. congruence.
  - apply NoDup_singleton.
Qed.

Lemma group_add_elem (d : list (pystr * list listed)) (cmd : executable)
    (p : pystr) (grp : list listed) (e : listed) :
  (p, grp) ∈ group_add d cmd → e ∈ grp →
  (∃ grp0, (p, grp0) ∈ d ∧ e ∈ grp0)
  ∨ (p = ex_plugin cmd ∧ e = to_listed cmd).
Proof.
  induction d as [| [q cmds] d IH]; simpl.
  - intros Hin He. apply list_elem_of_singleton in Hin. injection Hin as -> ->.
    apply list_elem_of_singleton in He. auto.
  - destruct (decide (q = ex_plugin cmd)) as [-> | Hne].
    + intros [[= -> ->] | Hin]%elem_of_cons He.
      * apply elem_of_app in He as [He | He].
        -- left. exists cmds. split; [apply elem_of_cons; by left | done].
        -- apply list_elem_of_singleton in He. auto.
      * left. exists grp. split; [apply elem_of_cons; by right | done].
    + intros [[= -> ->] | Hin]%elem_of_cons He.
      * left. exists cmds. split; [apply elem_of_cons; by left | done].
      * destruct (IH Hin He) as [(g0 & Hg & Heg) | ?]; [| auto].
        left. exists g0. split; [apply elem_of_cons; by right | done].
Qed.

Lemma group_add_keeps (d : list (pystr * list listed)) (cmd : executable)
    (p : pystr) (grp0 : list listed) (e : listed) :
  (p, grp0) ∈ d → e ∈ grp0 →
  ∃ grp, (p, grp) ∈ group_add d cmd ∧ e ∈ grp.
Proof.
  induction d as [| [q cmds] d IH]; simpl.
  - intros Hin. by apply not_elem_of_nil in Hin.
  - intros [[= -> ->] | Hin]%elem_of_cons He.
    + destruct (decide (q = ex_plugin cmd)).
      * exists (cmds ++ [to_listed cmd]).
        split; [apply elem_of_cons; by left | apply elem_of_app; by left].
      * exists cmds. split; [apply elem_of_cons; by left | done].
    + destruct (decide (q = ex_plugin cmd)).
      * exists grp0. split; [apply elem_of_cons; by right | done].
      * destruct (IH Hin He) as (g & Hg & Heg).
        exists g. split; [apply elem_of_cons; by right | done].
Qed.

Lemma group_add_new (d : list (pystr * list listed)) (cmd : executable) :
  ∃ grp, (ex_plugin cmd, grp) ∈ group_add d cmd ∧ to_listed cmd ∈ grp.
Proof.
  induction d as [| [q cmds] d IH]; simpl.
  - exists [to_listed cmd]. split; apply list_elem_of_singleton; reflexivity.
  - destruct (decide (q = ex_plugin cmd)) as [-> | Hne].
    + exists (cmds ++ [to_listed cmd]). split; [apply elem_of_cons; by left |].
      apply elem_of_app. right. by apply list_elem_of_singleton.
    + destruct IH as (g & Hg & Heg).
      exists g. split; [apply elem_of_cons; by right | done].
Qed.

Lemma group_fold_size (cmds : list executable) (d : list (pystr * list listed)) :
  group_sizes (fold_left group_add cmds d) = group_sizes d + length cmds.
Proof.
  revert d. induction cmds as [| c cmds IH]; intros d; simpl; [lia |].
  rewrite IH, group_add_size. lia.
Qed.

Lemma group_fold_NoDup (cmds : list executable) (d : list (pystr * list listed)) :
  NoDup (map fst d) → NoDup (map fst (fold_left group_add cmds d)).
Proof.
  revert d. induction cmds as [| c cmds IH]; intros d H; simpl; [exact H |].
  apply IH, group_add_NoDup, H.
Qed.

Lemma group_fold_elem (cmds : list executable) (d : list (pystr * list listed))
    (p : pystr) (grp : list listed) (e : listed) :
  (p, grp) ∈ fold_left group_add cmds d → e ∈ grp →
  (∃ grp0, (p, grp0) ∈ d ∧ e ∈ grp0)
  ∨ (∃ c, c ∈ cmds ∧ ex_plugin c = p ∧ to_listed c = e).
Proof.
  revert d. induction cmds as [| c cmds IH]; intros d; simpl.
  - intros Hin He. left. eauto.
  - intros Hin He. destruct (IH _ Hin He) as [(g0 & Hg & Heg) | (c' & Hc & ?)].
    + destruct (group_add_elem _ _ _ _ _ Hg Heg) as [? | [-> ->]]; [auto |].
      right. exists c. split; [apply elem_of_cons; by left | done].
    + right. exists c'. split; [apply elem_of_cons; by right | done].
Qed.

Lemma group_fold_keeps (cmds : list executable) (d : list (pystr * list listed))
    (p : pystr) (grp0 : list listed) (e : listed) :
  (p, grp0) ∈ d → e ∈ grp0 →
  ∃ grp, (p, grp) ∈ fold_left group_add cmds d ∧ e ∈ grp.
Proof.
  revert d grp0. induction cmds as [| c cmds IH]; intros d grp0 Hin He; simpl.
  - eauto.
  - destruct (group_add_keeps d c p grp0 e Hin He) as (g & Hg & Heg). eauto.
Qed.

Lemma group_fold_has (cmds : list executable) (d : list (pystr * list listed))
    (c : executable) :
  c ∈ cmds →
  ∃ grp, (ex_plugin c, grp) ∈ fold_left group_add cmds d ∧ to_listed c ∈ grp.
Proof.
  revert d. induction cmds as [| c' cmds IH]; intros d Hin; simpl.
  - by apply not_elem_of_nil in Hin.
  - apply elem_of_cons in Hin as [<- | Hin]; [| by apply IH].
    destruct (group_add_new d c) as (g & Hg & Heg).
    eapply group_fold_keeps; eauto.
Qed.

End Grouping.

Section ListingFacts.

Import Listing.

Variable lower : pystr → pystr.
Variable items : gmap pystr handler_info → list (pystr * handler_info).
Variable cfg : config.
Variable hst : host.
Variable event : AstrMessageEvent.

Lemma list_executable_commands_run (kw_category : option pystr) (w : world) :
  list_executable_commands lower items cfg hst event kw_category w
  = (Returns
       {| total_count :=
            length (collect lower items cfg (lazy_index hst (w_index w)) event
                      (strip (default [] kw_category)));
          plugins :=
            group (collect lower items cfg (lazy_index hst (w_index w)) event
                     (strip (default [] kw_category))) |},
     {| w_index := lazy_index hst (w_index w);
        w_heap := w_heap w;
        w_trace := w_trace w ++ lazy_calls (w_index w) |}).
Proof.
  unfold list_executable_commands. cbv zeta. rewrite get_index_bind.
  erewrite bind_run by apply lazy_rebuild_run.
  rewrite get_index_bind. reflexivity.
Qed.

Lemma collect_elem (self : index) (category : pystr) (c : executable) :
  c ∈ collect lower items cfg self event category ↔
  ∃ k info, (k, info) ∈ items (_handler_cache self)
            ∧ keeps lower cfg self event category (k, info) = true
            ∧ c = to_executable (k, info).
Proof.
  unfold collect. rewrite list_elem_of_In, in_map_iff. split.
  - intros ([k info] & <- & Hin). apply filter_In in Hin as [Hin Hk].
    exists k, info. by rewrite list_elem_of_In.
  - intros (k & info & Hin & Hk & ->). exists (k, info).
    split; [reflexivity |]. apply filter_In. by rewrite <- list_elem_of_In.
Qed.

(** The listing always returns, touches nothing but the lazily rebuilt
    index, and is consistent: [total_count] is the number of commands held
    by the groups of [plugins], and no plugin name heads two groups. *)
Theorem list_executable_commands_counts (kw_category : option pystr)
    (w : world) :
  ∃ l, list_executable_commands lower items cfg hst event kw_category w
       = (Returns l,
          {| w_index := lazy_index hst (w_index w);
             w_heap := w_heap w;
             w_trace := w_trace w ++ lazy_calls (w_index w) |})
       ∧ total_count l = group_sizes (plugins l)
       ∧ NoDup (map fst (plugins l)).
Proof.
  rewrite list_executable_commands_run. eexists. split; [reflexivity |].
  cbn [total_count plugins]. unfold group. split.
  - rewrite group_fold_size. reflexivity.
  - apply group_fold_NoDup. constructor.
Qed.

(** Every command of the listing is a record of the index that the policy
    gate allows for the caller, filed under the plugin of the record and
    shown with the description and aliases of the record. *)
Theorem list_executable_commands_sound (kw_category : option pystr)
    (w w' : world) (l : listing) (p : pystr) (grp : list listed) (e : listed) :
  enumerates items →
  list_executable_commands lower items cfg hst event kw_category w
    = (Returns l, w') →
  (p, grp) ∈ plugins l → e ∈ grp →
  ∃ info,
    _handler_cache (lazy_index hst (w_index w)) !! li_command e = Some info
    ∧ fst (_can_execute cfg (lazy_index hst (w_index w)) (li_command e) event)
      = true
    ∧ hi_plugin info = p
    ∧ li_description e = hi_description info
    ∧ li_aliases e = hi_aliases info.
Proof.
  intros Henum. rewrite list_executable_commands_run. intros [= <- _].
  cbn [plugins]. unfold group. intros Hin He.
  destruct (group_fold_elem _ _ _ _ _ Hin He) as [(g0 & Hg & _) | (c & Hc & <- & <-)].
  { by apply not_elem_of_nil in Hg. }
  apply collect_elem in Hc as (k & info & Hitem & Hkeep & ->).
  exists info. apply Henum in Hitem. unfold keeps in Hkeep. simpl in Hkeep |- *.
  destruct (fst (_can_execute cfg _ k event)); [| discriminate]. auto.
Qed.

(** Without a category, every record of the index that the policy gate
    allows under its key appears in the listing, in the group of its
    plugin. *)
Theorem list_executable_commands_complete (kw_category : option pystr)
    (w w' : world) (l : listing) (k : pystr) (info : handler_info) :
  enumerates items →
  strip (default [] kw_category) = [] →
  list_executable_commands lower items cfg hst event kw_category w
    = (Returns l, w') →
  _handler_cache (lazy_index hst (w_index w)) !! k = Some info →
  fst (_can_execute cfg (lazy_index hst (w_index w)) k event) = true →
  ∃ grp e, (hi_plugin info, grp) ∈ plugins l ∧ e ∈ grp ∧ li_command e = k.
Proof.
  intros Henum Hcat. rewrite list_executable_commands_run, Hcat.
  intros [= <- _] Hk Hallowed. cbn [plugins]. unfold group.
  assert (Hc : to_executable (k, info)
               ∈ collect lower items cfg (lazy_index hst (w_index w)) event []).
  { apply collect_elem. exists k, info. split; [by apply Henum |].
    split; [| reflexivity]. unfold keeps. simpl. by rewrite Hallowed. }
  destruct (group_fold_has _ [] _ Hc) as (g & Hg & Heg).
  exists g, (to_listed (to_executable (k, info))). auto.
Qed.

(** With the executor disabled the listing is empty. *)
Theorem list_executable_commands_disabled (kw_category : option pystr)
    (w : world) :
  enabled cfg = false →
  fst (list_executable_commands lower items cfg hst event kw_category w)
  = Returns {| total_count := 0; plugins := [] |}.
Proof.
  intros Hoff. rewrite list_executable_commands_run. cbn [fst].
  assert (Hnone : ∀ self c, collect lower items cfg self event c = []).
  { intros self c. unfold collect.
    induction (items (_handler_cache self)) as [| it its IH]; [reflexivity |].
    simpl. unfold keeps at 1, _can_execute. rewrite Hoff. simpl. exact IH. }
  by rewrite Hnone.
Qed.

End ListingFacts.

Lemma map_to_list_enumerates : enumerates map_to_list.
Proof. intros m k v. apply elem_of_map_to_list. Qed.

Lemma list_executable_commands_sound_witness :
  ∃ info,
    _handler_cache (lazy_index Sample.hst (w_index Sample.world0)) !! u "禁言"
      = Some info
    ∧ fst (_can_execute Sample.cfg (lazy_index Sample.hst (w_index Sample.world0))
             (u "禁言") Sample.user_event) = true
    ∧ hi_plugin info = u "group_admin"
    ∧ [u "mute"] = hi_aliases info.
Proof.
  destruct (list_executable_commands_sound id map_to_list Sample.cfg Sample.hst
              Sample.user_event None Sample.world0
              (snd (Listing.list_executable_commands id map_to_list Sample.cfg
                      Sample.hst Sample.user_event None Sample.world0))
              ListingSample.listing0 (u "group_admin")
              [ListingSample.checkin_listed; ListingSample.mute_listed]
              ListingSample.mute_listed)
    as (info & H1 & H2 & H3 & _ & H5).
  - apply map_to_list_enumerates.
  - vm_compute. reflexivity.
  - apply list_elem_of_singleton. reflexivity.
  - apply elem_of_cons. right. apply list_elem_of_singleton. reflexivity.
  - exists info. auto.
Defined.

Lemma list_executable_commands_complete_witness :
  ∃ grp e, (u "group_admin", grp) ∈ Listing.plugins ListingSample.listing0
           ∧ e ∈ grp ∧ Listing.li_command e = u "禁言".
Proof.
  apply (list_executable_commands_complete id map_to_list Sample.cfg Sample.hst
           Sample.user_event None Sample.world0
           (snd (Listing.list_executable_commands id map_to_list Sample.cfg
                   Sample.hst Sample.user_event None Sample.world0))
           ListingSample.listing0 (u "禁言") Sample.mute_info).
  - apply map_to_list_enumerates.
  - reflexivity.
  - vm_compute. reflexivity.
  - vm_compute. reflexivity.
  - vm_compute. reflexivity.
Defined.

Lemma list_executable_commands_disabled_witness :
  fst (Listing.list_executable_commands id map_to_list
         {| enabled := false; whitelist := []; blacklist := [];
            allow_admin_commands := true; admin_users := [];
            bot_user_id := u "bot_self"; enable_forward := true;
            forward_threshold := 1500 |}
         Sample.hst Sample.user_event None Sample.world0)
  = Returns {| Listing.total_count := 0; Listing.plugins := [] |}.
Proof.
  apply (list_executable_commands_disabled id map_to_list
           {| enabled := false; whitelist := []; blacklist := [];
              allow_admin_commands := true; admin_users := [];
              bot_user_id := u "bot_self"; enable_forward := true;
              forward_threshold := 1500 |}
           Sample.hst Sample.user_event None Sample.world0).
  reflexivity.
Defined.

(** ** The two ends of an invocation *)



Lemma run_handler_yields (ev : pyevent) (w : world)
    (body : pyevent → heap → list (option result) * option exn * heap)
    (ys : list (option result)) (h1 : heap) :
  body ev (w_heap w) = (ys, None, h1) →
  Exec.run_handler (AsyncGenFn body) ev w
  = (Returns (Exec.keep_results ys),
     {| w_index := w_index w; w_heap := h1;
        w_trace := w_trace w ++ [Call_handler ev] |}).
Proof.
  intros H. unfold Exec.run_handler.
  unfold mbind, M_bind, Run.log_call, Run.get_heap, Run.put_heap.
  cbn [w_index w_heap w_trace]. by rewrite H.
Qed.

Lemma restore_run (event : AstrMessageEvent) (msg mo : value) (w : world) :
  ∃ h', Exec.restore event msg mo w
        = (Returns tt, {| w_index := w_index w; w_heap := h';
                          w_trace := w_trace w |})
        ∧ Obj.getattr h' (self_ref event) "message_str" = Some msg.
Proof.
  unfold Exec.restore. erewrite bind_run by apply set_attr_orig.
  destruct mo; try rewrite set_attr_orig; eexists; (split; [reflexivity |]);
    cbn [w_heap];
    try (rewrite getattr_setattr_other_name by discriminate);
    apply getattr_setattr_same.
Qed.

(** A call without mentions and without a quoted image whose async
    generator handler finishes normally: the handler is run once, on the
    event (behind the wrapper when [as_bot] is set) whose text has been set
    to the slash, the canonical command and the arguments; the payload is
    the success payload built from the texts and images extracted from the
    results that are not [None]; the only sends are those of the delivery
    block; and the text of the event is the original one again. *)
Theorem invoke_success (cfg : config) (hst : host)
    (event : AstrMessageEvent) (info : handler_info)
    (actual_command args : pystr) (as_bot : bool) (w : world)
    (body : pyevent → heap → list (option result) * option exn * heap)
    (orig : value) (ys : list (option result)) (h1 : heap) :
  handler (hi_handler info) = AsyncGenFn body →
  Obj.getattr (w_heap w) (self_ref event) "message_str" = Some orig →
  body (if as_bot then Wrap (Wrapper.init event (bot_user_id cfg))
        else Orig event)
       (Obj.setattr (w_heap w) (self_ref event) "message_str"
          (VStr (if truthy args then u "/" ++ actual_command ++ u " " ++ args
                 else u "/" ++ actual_command)))
    = (ys, None, h1) →
  ∃ w' sent,
    Exec.invoke cfg hst event info actual_command args [] [] as_bot w
    = (Returns (Exec.success_response actual_command args
                  (extracted_texts (Exec.keep_results ys))
                  (extracted_images (Exec.keep_results ys)) as_bot), w')
    ∧ w_trace w'
      = w_trace w
        ++ Call_handler (if as_bot
                         then Wrap (Wrapper.init event (bot_user_id cfg))
                         else Orig event)
        :: map Call_send sent
    ∧ Obj.getattr (w_heap w') (self_ref event) "message_str" = Some orig.
Proof.
  intros Hfn Horig Hbody. unfold Exec.invoke.
  rewrite (bind_run _ _ w w (w_heap w)) by reflexivity.
  rewrite Horig. cbv zeta. rewrite Hfn.
  unfold Run.try_except at 1.
  erewrite bind_run by apply set_attr_event_run.
  cbn [nonempty truthy orb].
  rewrite (bind_run (mret tt) _ _ _ tt eq_refl).
  erewrite bind_run by (apply run_handler_yields; exact Hbody).
  cbv beta.
  match goal with
  | |- context [mbind _ (Exec.send_results ?c ?h ?e ?rs ?ts) ?w0] =>
    destruct (send_results_run c h e rs ts w0) as (sent & Hsend)
  end.
  erewrite bind_run by exact Hsend.
  cbv beta.
  match goal with
  | |- context [mbind _ (Exec.restore ?e ?m ?mo) ?w0] =>
    destruct (restore_run e m mo w0) as (h' & Hrest & Hmsg)
  end.
  erewrite bind_run by exact Hrest.
  cbv beta.
  exists {| w_index := w_index w; w_heap := h';
            w_trace := (w_trace w
                        ++ [Call_handler
                              (if as_bot
                               then Wrap (Wrapper.init event (bot_user_id cfg))
                               else Orig event)])
                       ++ map Call_send sent |}, sent.
  cbn [w_index w_heap w_trace]. split; [reflexivity |].
  split; [by rewrite <- app_assoc | exact Hmsg].
Qed.

Lemma invoke_success_witness :
  ∃ w' sent,
    Exec.invoke Sample.cfg Sample.hst Sample.user_event Sample.mute_info
      (u "禁言") (u "60") [] [] true Sample.world0
    = (Returns (Exec.success_response (u "禁言") (u "60")
                  (extracted_texts (Exec.keep_results []))
                  (extracted_images (Exec.keep_results [])) true), w')
    ∧ w_trace w'
      = w_trace Sample.world0
        ++ Call_handler (Wrap (Wrapper.init Sample.user_event
                                 (bot_user_id Sample.cfg)))
        :: map Call_send sent
    ∧ Obj.getattr (w_heap w') (self_ref Sample.user_event) "message_str"
      = Some (VStr (u "hello")).
Proof.
  eapply (invoke_success Sample.cfg Sample.hst Sample.user_event
            Sample.mute_info (u "禁言") (u "60") true Sample.world0
            (fun _ h => ([], None, h))).
  - reflexivity.
  - vm_compute. reflexivity.
  - reflexivity.
Defined.


(** ** The text of the event after a call *)

(** Whenever [execute_command] returns a payload (a denial, a failure or
    a success), the event has the [message_str] it had before the call,
    whatever the handler did to it. *)
Theorem execute_command_message_str_restored (cfg : config) (hst : host)
    (event : AstrMessageEvent) (kw : kwargs) (w w' : world) (out : json) :
  Exec.execute_command cfg hst event kw w = (Returns out, w') →
  Obj.getattr (w_heap w') (self_ref event) "message_str"
  = Obj.getattr (w_heap w) (self_ref event) "message_str".
Proof. apply execute_command_restores_message_str. Qed.

Lemma execute_command_message_str_restored_witness :
  Obj.getattr
    (w_heap (snd (Exec.execute_command Sample.cfg Sample.hst Sample.user_event
                    Sample.checkin_call Sample.world0)))
    (self_ref Sample.user_event) "message_str"
  = Obj.getattr (w_heap Sample.world0) (self_ref Sample.user_event) "message_str".
Proof.
  apply (execute_command_message_str_restored Sample.cfg Sample.hst
           Sample.user_event Sample.checkin_call Sample.world0
           (snd (Exec.execute_command Sample.cfg Sample.hst Sample.user_event
                   Sample.checkin_call Sample.world0))
           (JObj [("success", JBool false); ("command", JStr (u "签到"));
                  ("error", JStr (u "执行失败: boom"))])).
  vm_compute. reflexivity.
Defined.
